(** * pybridge-zod: the RPC multiplexing layer of [src/bridge.ts]

    A shallow embedding of the host side ([Controller], [PyBridge]) and of
    the interpreter-side [hook] loop, followed by the properties of the
    specification that concern them.

    Conventions.
    - A [Buffer] chunk and a JS string are both a [string] of 8-bit
      characters.  The interpreter writes its records with [json.dumps],
      whose output is 7-bit; on such input [Buffer.toString("utf8")] is the
      identity, and the whitespace removed by [String.prototype.trim] is the
      ASCII whitespace.
    - [messageId] is a JS number used as an integer counter; it is a [Z].
      Number arithmetic is exact on the integers a session can reach.
    - A decoded record is an [RpcMessage], as the interface of the source
      declares it: [id] is a number (an integer on the wire), the other
      fields are optional JSON values.
    - [JSON.parse] and the zod schemas are library code: the first is a
      parameter of the framer, a schema is its [parse] function. *)

From stdpp Require Import base gmap strings list pretty.
From Stdlib Require Import ZArith Ascii String Lia.

Set Warnings "-register-all".

Local Open Scope string_scope.
Local Open Scope Z_scope.
Local Open Scope list_scope.

(** ** JSON values and their JavaScript coercions *)

Inductive json : Type :=
| JNull
| JBool (b : bool)
| JNum (n : Z)
| JStr (s : string)
| JArr (items : list json)
| JObj (fields : list (string * json)).

(** [ToBoolean]: what [if (x)] tests. *)
Definition truthy (v : json) : bool :=
  match v with
  | JNull => false
  | JBool b => b
  | JNum n => negb (n =? 0)
  | JStr s => negb (String.eqb s "")
  | JArr _ => true
  | JObj _ => true
  end.

(** An optional field [o.f] in a condition: [undefined] is falsy. *)
Definition truthy_field (f : option json) : option json :=
  match f with
  | Some v => if truthy v then Some v else None
  | None => None
  end.

Fixpoint join (sep : string) (parts : list string) : string :=
  match parts with
  | [] => ""
  | [p] => p
  | p :: rest => p +:+ sep +:+ join sep rest
  end.

(** [ToString], as applied by [new Error(x)] to its argument.  Inside
    [Array.prototype.join] a [null] element prints as the empty string. *)
Fixpoint js_String (v : json) : string :=
  match v with
  | JNull => "null"
  | JBool true => "true"
  | JBool false => "false"
  | JNum n => pretty n
  | JStr s => s
  | JArr items =>
      join "," (map (fun x => match x with JNull => "" | _ => js_String x end) items)
  | JObj _ => "[object Object]"
  end.

(** ** Wire messages *)

(** [interface RpcMessage]. An absent field is [None]. *)
Record RpcMessage : Type := mkRpcMessage {
  msg_id : Z;
  msg_ready : option json;
  msg_result : option json;
  msg_yield : option json;
  msg_error : option json;
}.

Definition Yield (id : Z) (v : json) : RpcMessage :=
  mkRpcMessage id None None (Some v) None.
Definition Error (id : Z) (e : json) : RpcMessage :=
  mkRpcMessage id None None None (Some e).
Definition Completion (id : Z) : RpcMessage :=
  mkRpcMessage id None None None None.

(** The object [{ id, method, args }] that [send] serialises. *)
Record CallRequest : Type := mkCallRequest {
  req_id : Z;
  req_method : string;
  req_args : list json;
}.

(** ** The interpreter-side [hook] loop *)

(** What calling the requested method of [module] on the request's
    arguments does: it returns a plain value, returns a generator (which produces [items] and then either
    finishes or raises), or raises.  A trace is the list of strings that
    [traceback.format_exception] builds.

    The loop guards a request with [except Exception]: [PyRaise] and the
    [raised] of [PyGenerator] stand for a raise of an [Exception].  A raise
    of anything else ([SystemExit], [KeyboardInterrupt], [GeneratorExit]),
    by the method or by its generator after it produced [items], is
    [PyAbort]: the [except Exception] clause lets it through, so nothing
    more is printed and the interpreter ends (through [sys.exit(0)] for a
    [KeyboardInterrupt], through the uncaught exception otherwise). *)
Inductive PyOutcome : Type :=
| PyReturn (result : json)
| PyGenerator (items : list json) (raised : option (list string))
| PyRaise (trace : list string)
| PyAbort (items : list json).

Definition error_message (id : Z) (trace : list string) : RpcMessage :=
  Error id (JArr (map JStr trace)).

(** The records printed to [orig_stdout] for one request with id [id]. *)
Definition hook (id : Z) (o : PyOutcome) : list RpcMessage :=
  match o with
  | PyGenerator items raised =>
      map (Yield id) items ++
      match raised with
      | None => [Completion id]
      | Some trace => [error_message id trace]
      end
  | PyReturn result => [Yield id result; Completion id]
  | PyRaise trace => [error_message id trace]
  | PyAbort items => map (Yield id) items
  end.

(** Whether the [for line in sys.stdin] loop is left while the request is
    served, so that no later line is read. *)
Definition exits (o : PyOutcome) : bool :=
  match o with
  | PyAbort _ => true
  | _ => false
  end.


(** ** rxjs: [Subject] and [toPromise] *)

Inductive Notification : Type :=
| NNext (v : json)
| NError (message : string)
| NComplete.

(** A subject is the notifications it has passed on to its observers, and
    [isStopped]. *)
Record Subject : Type := mkSubject {
  isStopped : bool;
  emitted : list Notification;
}.

Definition new_Subject : Subject := mkSubject false [].

Definition Subject_next (v : json) (s : Subject) : Subject :=
  if isStopped s then s else mkSubject false (emitted s ++ [NNext v]).
Definition Subject_error (message : string) (s : Subject) : Subject :=
  if isStopped s then s else mkSubject true (emitted s ++ [NError message]).
Definition Subject_complete (s : Subject) : Subject :=
  if isStopped s then s else mkSubject true (emitted s ++ [NComplete]).

Inductive PromiseState : Type :=
| Pending
| Fulfilled (value : option json)     (* [None] is [undefined] *)
| Rejected (message : string).

(** [toPromise]: remember the last value, resolve with it on completion,
    reject on error. *)
Fixpoint settle (value : option json) (ns : list Notification) : PromiseState :=
  match ns with
  | [] => Pending
  | NNext v :: rest => settle (Some v) rest
  | NError e :: _ => Rejected e
  | NComplete :: _ => Fulfilled value
  end.

Definition toPromise (s : Subject) : PromiseState := settle None (emitted s).

(** ** zod *)

(** A schema is its [parse]: [None] when it throws a [ZodError]. *)
Record ZodSchema : Type := mkZodSchema {
  zod_parse : json -> option json;
}.

(** ** [class Controller] *)

(** The closure stored in [subscribers]: it captures [messageId], [schema]
    and [subject] (a handle into [subjects]). *)
Record Subscriber : Type := mkSubscriber {
  sub_messageId : Z;
  sub_schema : ZodSchema;
  sub_subject : nat;
}.

Record Controller : Type := mkController {
  messageId : Z;
  subscribers : gmap Z Subscriber;
  subjects : list Subject;          (* every [new Subject()], by handle *)
  stdin : list CallRequest;         (* lines written to [process.stdin] *)
  buffer : list string;             (* [const buffer: Buffer[]] *)
  warnings : list string;           (* [console.warn] *)
}.

Definition new_Controller : Controller :=
  mkController 0 ∅ [] [] [] [].

Definition set_subscribers (f : gmap Z Subscriber -> gmap Z Subscriber)
    (c : Controller) : Controller :=
  mkController (messageId c) (f (subscribers c)) (subjects c) (stdin c)
    (buffer c) (warnings c).

Definition set_subject (h : nat) (f : Subject -> Subject) (c : Controller) : Controller :=
  mkController (messageId c) (subscribers c) (alter f h (subjects c)) (stdin c)
    (buffer c) (warnings c).

Definition set_buffer (b : list string) (c : Controller) : Controller :=
  mkController (messageId c) (subscribers c) (subjects c) (stdin c) b (warnings c).

Definition warn (w : string) (c : Controller) : Controller :=
  mkController (messageId c) (subscribers c) (subjects c) (stdin c) (buffer c)
    (warnings c ++ [w]).

(** The callback that [send] registers, applied to [data]. *)
Definition subscriber (sub : Subscriber) (data : RpcMessage) (c : Controller) : Controller :=
  match truthy_field (msg_ready data) with
  | Some _ => c
  | None =>
  match truthy_field (msg_yield data) with
  | Some y =>
      match zod_parse (sub_schema sub) y with
      | Some v => set_subject (sub_subject sub) (Subject_next v) c
      | None => c                     (* thrown, and caught by [catch {}] *)
      end
  | None =>
  match truthy_field (msg_error data) with
  | Some e =>
      set_subject (sub_subject sub) (Subject_error (js_String e))
        (set_subscribers (delete (sub_messageId sub)) c)
  | None =>
      set_subject (sub_subject sub) Subject_complete
        (set_subscribers (delete (sub_messageId sub)) c)
  end end end.

(** [send]: returns the handle of the new subject. *)
Definition send (method : string) (args : list json) (schema : ZodSchema)
    (c : Controller) : nat * Controller :=
  let id := messageId c in
  let subject := List.length (subjects c) in
  (subject,
   mkController (id + 1)
     (<[id := mkSubscriber id schema subject]> (subscribers c))
     (subjects c ++ [new_Subject])
     (stdin c ++ [mkCallRequest id method args])
     (buffer c) (warnings c)).

(** One decoded record and the sink it was handed to, if any. *)
Record Delivery : Type := mkDelivery {
  dl_msg : RpcMessage;
  dl_sink : option Subscriber;
}.

(** The body of the loop of [read] once [JSON.parse] has returned [res]. *)
Definition dispatch (res : RpcMessage) (c : Controller) : Controller * list Delivery :=
  match subscribers c !! msg_id res with
  | Some sub => (subscriber sub res c, [mkDelivery res (Some sub)])
  | None => (c, [mkDelivery res None])
  end.

(** ** Strings and buffers *)

Definition LF : ascii := ascii_of_nat 10.
Definition quote : ascii := ascii_of_nat 34.

(** A string literal of the source: ['] stands for the double quote and
    the two characters [\n] for a line feed. *)
Fixpoint lit (s : string) : string :=
  match s with
  | String "\" (String "n" rest) => String LF (lit rest)
  | String "'" rest => String quote (lit rest)
  | String c rest => String c (lit rest)
  | EmptyString => EmptyString
  end.

(** [Buffer.includes(byte)] *)
Fixpoint includes (b : ascii) (data : string) : bool :=
  match data with
  | EmptyString => false
  | String c rest => if Ascii.eqb c b then true else includes b rest
  end.

(** [Buffer.concat(list).toString("utf8")] *)
Fixpoint Buffer_concat (chunks : list string) : string :=
  match chunks with
  | [] => EmptyString
  | chunk :: rest => chunk +:+ Buffer_concat rest
  end.

Definition is_space (c : ascii) : bool :=
  let n := nat_of_ascii c in
  ((9 <=? n) && (n <=? 13) || (n =? 32))%nat.

Fixpoint trimStart (s : string) : string :=
  match s with
  | EmptyString => EmptyString
  | String c rest => if is_space c then trimStart rest else s
  end.

Fixpoint trimEnd (s : string) : string :=
  match s with
  | EmptyString => EmptyString
  | String c rest =>
      match trimEnd rest with
      | EmptyString => if is_space c then EmptyString else String c EmptyString
      | rest' => String c rest'
      end
  end.

Definition trim (s : string) : string := trimEnd (trimStart s).

(** [s.split(sep)] for a one-character separator: never empty. *)
Fixpoint split (sep : ascii) (s : string) : list string :=
  match s with
  | EmptyString => [EmptyString]
  | String c rest =>
      if Ascii.eqb c sep then EmptyString :: split sep rest
      else match split sep rest with
           | first :: others => String c first :: others
           | [] => [String c EmptyString]
           end
  end.

Definition startsWith (s prefix : string) : bool := String.prefix prefix s.

(** ** The framer: the [read] handler of the constructor *)

Section Framer.

(** [JSON.parse], seen through the [RpcMessage] interface; [None] when
    it throws. *)
Variable JSON_parse : string -> option RpcMessage.

(** One iteration of [for (const message of messages)]. *)
Definition handle_message (message : string) (c : Controller)
    : Controller * list Delivery :=
  if negb (startsWith message (lit "{'")) then (c, [])
  else
    match JSON_parse message with
    | Some res => dispatch res c
    | None => (warn ("Could not parse: " +:+ message) c, [])
    end.

Fixpoint handle_messages (messages : list string) (c : Controller)
    : Controller * list Delivery :=
  match messages with
  | [] => (c, [])
  | message :: rest =>
      let (c1, d1) := handle_message message c in
      let (c2, d2) := handle_messages rest c1 in
      (c2, d1 ++ d2)
  end.

Definition read (data : string) (c : Controller) : Controller * list Delivery :=
  let c := set_buffer (buffer c ++ [data]) c in
  if includes LF data then
    let messages := split LF (trim (Buffer_concat (buffer c))) in
    let (c', ds) := handle_messages messages c in
    (set_buffer [] c', ds)
  else (c, []).

(** Chunks arriving one after the other. *)
Fixpoint read_all (chunks : list string) (c : Controller)
    : Controller * list Delivery :=
  match chunks with
  | [] => (c, [])
  | data :: rest =>
      let (c1, d1) := read data c in
      let (c2, d2) := read_all rest c1 in
      (c2, d1 ++ d2)
  end.

End Framer.

(** Records handed over one after the other. *)
Fixpoint dispatch_all (rs : list RpcMessage) (c : Controller)
    : Controller * list Delivery :=
  match rs with
  | [] => (c, [])
  | res :: rest =>
      let (c1, d1) := dispatch res c in
      let (c2, d2) := dispatch_all rest c1 in
      (c2, d1 ++ d2)
  end.

(** The promise [subject.toPromise()] of the subject with handle [h]. *)
Definition promise (c : Controller) (h : nat) : PromiseState :=
  match subjects c !! h with
  | Some s => toPromise s
  | None => Pending
  end.

(** The notifications the subject with handle [h] has emitted. *)
Definition stream (c : Controller) (h : nat) : list Notification :=
  match subjects c !! h with
  | Some s => emitted s
  | None => []
  end.

(** ** [class PyBridge] and the typed facade *)

(** A [z.ZodFunction] of the contract.  [returnType] is what
    [returnType()] gives; [returns_Subject] records the static type of the
    declared method, the condition [ReturnType<T> extends Subject<infer R>]
    of [PromisifyFn]. *)
Record ZodFunction : Type := mkZodFunction {
  returnType : ZodSchema;
  returns_Subject : bool;
}.

(** The [Proxy] built by [controller]: its [get] trap closes over the
    [controller] (a handle into [processes]) and over [schema.shape]. *)
Record Proxy : Type := mkProxy {
  px_controller : nat;
  px_shape : gmap string ZodFunction;
}.

Record PyBridge : Type := mkPyBridge {
  controllers : gmap string Proxy;
  processes : list Controller;      (* every [new Controller(...)], by handle *)
}.

Definition new_PyBridge : PyBridge := mkPyBridge ∅ [].

(** The properties every plain object inherits from [Object.prototype]:
    [o[name]] is truthy for them although [o] has no such key. *)
Definition Object_prototype : list string :=
  [ "constructor"; "__proto__"; "hasOwnProperty"; "isPrototypeOf";
    "propertyIsEnumerable"; "toLocaleString"; "toString"; "valueOf";
    "__defineGetter__"; "__defineSetter__"; "__lookupGetter__";
    "__lookupSetter__" ].

Definition inherited (name : string) : bool :=
  existsb (String.eqb name) Object_prototype.

(** What [controller] returns. *)
Inductive Facade : Type :=
| FProxy (p : Proxy)
| FInherited (name : string).         (* a member of [Object.prototype] *)

Definition controller (moduleName : string) (shape : gmap string ZodFunction)
    (b : PyBridge) : Facade * PyBridge :=
  match controllers b !! moduleName with
  | Some p => (FProxy p, b)
  | None =>
      if inherited moduleName then (FInherited moduleName, b)
      else
        let p := mkProxy (List.length (processes b)) shape in
        (FProxy p,
         mkPyBridge (<[moduleName := p]> (controllers b))
                    (processes b ++ [new_Controller]))
  end.

(** What the [get] trap returns for [name]. *)
Inductive Property : Type :=
| PProcess (controller : nat)
| PMethod (name : string).

Definition get (p : Proxy) (name : string) : Property :=
  if String.eqb name "process" then PProcess (px_controller p)
  else PMethod name.

(** What applying a property of the proxy to arguments gives. *)
Inductive Returned : Type :=
| RPromise (controller subject : nat)   (* [subject.toPromise()] *)
| RSubject (controller subject : nat)   (* the subject itself *)
| RThrow (error : string).

(** The arrow function [(...args) => { ... }] returned by the trap.
    [schema.shape[name]] of an undeclared name is [undefined], or a
    function of [Object.prototype] that has no [returnType]: either way
    [schema.shape[name].returnType()] throws a [TypeError]. *)
Definition method (p : Proxy) (name : string) (args : list json) (b : PyBridge)
    : Returned * PyBridge :=
  match px_shape p !! name with
  | None => (RThrow "TypeError", b)
  | Some f =>
      match processes b !! px_controller p with
      | Some c =>
          let (subject, c') := send name args (returnType f) c in
          (RPromise (px_controller p) subject,
           mkPyBridge (controllers b) (<[px_controller p := c']> (processes b)))
      | None => (RThrow "ReferenceError", b)
      end
  end.

(** [proxy[name](...args)] *)
Definition invoke (p : Proxy) (name : string) (args : list json) (b : PyBridge)
    : Returned * PyBridge :=
  match get p name with
  | PProcess _ => (RThrow "TypeError", b)   (* a [ChildProcess] is not callable *)
  | PMethod name => method p name args b
  end.

(** A decoded record reaching the controller with handle [h]. *)
Definition deliver (h : nat) (res : RpcMessage) (b : PyBridge) : PyBridge :=
  match processes b !! h with
  | Some c => mkPyBridge (controllers b) (<[h := fst (dispatch res c)]> (processes b))
  | None => b
  end.

Definition deliver_all (h : nat) (rs : list RpcMessage) (b : PyBridge) : PyBridge :=
  foldl (fun b res => deliver h res b) b rs.

(** The state of what a call returned. *)
Definition outcome (b : PyBridge) (r : Returned) : PromiseState :=
  match r with
  | RPromise h s | RSubject h s =>
      match processes b !! h with
      | Some c => promise c s
      | None => Pending
      end
  | RThrow e => Rejected e
  end.

(** ** A decoder for the JSON the protocol uses

    Objects, arrays, integers, strings without escapes, [true], [false]
    and [null].  It instantiates the [JSON_parse] parameter of the framer
    where a concrete decoder is needed. *)

Definition is_digit (c : ascii) : bool :=
  let n := nat_of_ascii c in ((48 <=? n) && (n <=? 57))%nat.

Fixpoint digits (acc : Z) (s : string) : Z * string :=
  match s with
  | String c rest =>
      if is_digit c then digits (10 * acc + Z.of_nat (nat_of_ascii c - 48)) rest
      else (acc, s)
  | EmptyString => (acc, s)
  end.

(** The characters up to the closing quote. *)
Fixpoint string_body (s : string) : option (string * string) :=
  match s with
  | EmptyString => None
  | String c rest =>
      if Ascii.eqb c quote then Some (EmptyString, rest)
      else if Ascii.eqb c "\" then None
      else match string_body rest with
           | Some (body, rest') => Some (String c body, rest')
           | None => None
           end
  end.

Definition literal (word : string) (v : json) (s : string) : option (json * string) :=
  if String.prefix word s
  then Some (v, String.substring (String.length word) (String.length s) s)
  else None.

Fixpoint value (fuel : nat) (s : string) : option (json * string) :=
  match fuel with
  | O => None
  | S fuel =>
      match trimStart s with
      | String "{" rest =>
          match trimStart rest with
          | String "}" rest' => Some (JObj [], rest')
          | _ => match members fuel rest with
                 | Some (fs, rest') => Some (JObj fs, rest')
                 | None => None
                 end
          end
      | String "[" rest =>
          match trimStart rest with
          | String "]" rest' => Some (JArr [], rest')
          | _ => match elements fuel rest with
                 | Some (vs, rest') => Some (JArr vs, rest')
                 | None => None
                 end
          end
      | String "-" (String c rest) =>
          if is_digit c
          then let (n, rest') := digits 0 (String c rest) in Some (JNum (- n), rest')
          else None
      | String c rest =>
          if Ascii.eqb c quote then
            match string_body rest with
            | Some (body, rest') => Some (JStr body, rest')
            | None => None
            end
          else if is_digit c
          then let (n, rest') := digits 0 (String c rest) in Some (JNum n, rest')
          else match literal "true" (JBool true) (String c rest) with
               | Some r => Some r
               | None =>
               match literal "false" (JBool false) (String c rest) with
               | Some r => Some r
               | None => literal "null" JNull (String c rest)
               end end
      | EmptyString => None
      end
  end
with elements (fuel : nat) (s : string) : option (list json * string) :=
  match fuel with
  | O => None
  | S fuel =>
      match value fuel s with
      | Some (v, rest) =>
          match trimStart rest with
          | String "," rest' =>
              match elements fuel rest' with
              | Some (vs, rest'') => Some (v :: vs, rest'')
              | None => None
              end
          | String "]" rest' => Some ([v], rest')
          | _ => None
          end
      | None => None
      end
  end
with members (fuel : nat) (s : string) : option (list (string * json) * string) :=
  match fuel with
  | O => None
  | S fuel =>
      match trimStart s with
      | String c rest =>
          if Ascii.eqb c quote then
            match string_body rest with
            | Some (key, rest1) =>
                match trimStart rest1 with
                | String ":" rest2 =>
                    match value fuel rest2 with
                    | Some (v, rest3) =>
                        match trimStart rest3 with
                        | String "," rest4 =>
                            match members fuel rest4 with
                            | Some (fs, rest5) => Some ((key, v) :: fs, rest5)
                            | None => None
                            end
                        | String "}" rest4 => Some ([(key, v)], rest4)
                        | _ => None
                        end
                    | None => None
                    end
                | _ => None
                end
            | None => None
            end
          else None
      | EmptyString => None
      end
  end.

Definition decode_json (s : string) : option json :=
  match value (S (String.length s)) s with
  | Some (v, rest) =>
      match trimStart rest with
      | EmptyString => Some v
      | _ => None
      end
  | None => None
  end.

(** [o.key]: the last occurrence of a key wins. *)
Fixpoint field (key : string) (fs : list (string * json)) : option json :=
  match fs with
  | [] => None
  | (k, v) :: rest =>
      match field key rest with
      | Some v' => Some v'
      | None => if String.eqb k key then Some v else None
      end
  end.

Definition as_RpcMessage (v : json) : option RpcMessage :=
  match v with
  | JObj fs =>
      match field "id" fs with
      | Some (JNum id) =>
          Some (mkRpcMessage id (field "ready" fs) (field "result" fs)
                  (field "yield" fs) (field "error" fs))
      | _ => None
      end
  | _ => None
  end.

Definition decode (s : string) : option RpcMessage :=
  match decode_json s with
  | Some v => as_RpcMessage v
  | None => None
  end.

(** ** Sessions *)

(** The branch of the callback of [send] that a record takes: the variant
    the codec reads it as. *)
Inductive Variant : Type :=
| VReady
| VYield (value : json)
| VError (description : json)
| VCompletion.

Definition variant (data : RpcMessage) : Variant :=
  match truthy_field (msg_ready data) with
  | Some _ => VReady
  | None =>
  match truthy_field (msg_yield data) with
  | Some y => VYield y
  | None =>
  match truthy_field (msg_error data) with
  | Some e => VError e
  | None => VCompletion
  end end end.

(** What happens to a controller: a caller calls [send], or the output
    stream of the subprocess emits a chunk. *)
Inductive Action : Type :=
| Call (method : string) (args : list json) (schema : ZodSchema)
| Data (chunk : string).

Definition step (JSON_parse : string -> option RpcMessage) (a : Action)
    (c : Controller) : Controller * list Delivery :=
  match a with
  | Call method args schema => ((send method args schema c).2, [])
  | Data chunk => read JSON_parse chunk c
  end.

Fixpoint run (JSON_parse : string -> option RpcMessage) (trace : list Action)
    (c : Controller) : Controller * list Delivery :=
  match trace with
  | [] => (c, [])
  | a :: rest =>
      let (c1, d1) := step JSON_parse a c in
      let (c2, d2) := run JSON_parse rest c1 in
      (c2, d1 ++ d2)
  end.

Definition is_Call (a : Action) : bool :=
  match a with Call _ _ _ => true | Data _ => false end.

Definition calls (trace : list Action) : nat :=
  List.length (List.filter is_Call trace).

(** The same at the level of decoded records: call requests interleaved
    with the response lines the framer has decoded. *)
Inductive Event : Type :=
| Request (method : string) (args : list json) (schema : ZodSchema)
| Line (res : RpcMessage).

Fixpoint play (es : list Event) (c : Controller) : Controller * list Delivery :=
  match es with
  | [] => (c, [])
  | Request method args schema :: rest => play rest (send method args schema c).2
  | Line res :: rest =>
      let (c1, d1) := dispatch res c in
      let (c2, d2) := play rest c1 in
      (c2, d1 ++ d2)
  end.

(** Every response line carries the id of a call registered when the line
    is processed. *)
Fixpoint matched (es : list Event) (c : Controller) : Prop :=
  match es with
  | [] => True
  | Request method args schema :: rest => matched rest (send method args schema c).2
  | Line res :: rest =>
      is_Some (subscribers c !! msg_id res) ∧ matched rest (dispatch res c).1
  end.

Fixpoint lines (es : list Event) : list RpcMessage :=
  match es with
  | [] => []
  | Request _ _ _ :: rest => lines rest
  | Line res :: rest => res :: lines rest
  end.

(** The records handed to the sink of the call with id [m], in order. *)
Definition received (m : Z) (ds : list Delivery) : list RpcMessage :=
  dl_msg <$> filter (λ d, sub_messageId <$> dl_sink d = Some m) ds.

(** The records for which the callback takes one of its two branches that
    delete the sink from [subscribers]. *)
Definition unsubscribes (res : RpcMessage) : bool :=
  match variant res with
  | VError _ | VCompletion => true
  | VReady | VYield _ => false
  end.

(** The records up to the first one that makes the callback unsubscribe,
    that one included. *)
Fixpoint until_unsubscribed (rs : list RpcMessage) : list RpcMessage :=
  match rs with
  | [] => []
  | res :: rest => if unsubscribes res then [res] else res :: until_unsubscribed rest
  end.

(** What the callback of [send] does to its own subject, in the state [s],
    when it is called with [res]: the callback run in a controller that
    holds this one subject. *)
Definition sink_effect (schema : ZodSchema) (s : Subject) (res : RpcMessage)
    : Subject :=
  default s
    (subjects (subscriber (mkSubscriber 0 schema 0) res
                 (mkController 1 ∅ [s] [] [] [])) !! 0%nat).

(** [line.subarray(0, k)] and [line.subarray(k)] *)
Definition chunks_at (k : nat) (line : string) : list string :=
  [ String.substring 0 k line;
    String.substring k (String.length line - k) line ].

(** ** Invariants of a session *)

(** Every registered sink sits under its own id, and ids are below the
    next one. *)
Definition registry_ok (c : Controller) : Prop :=
  ∀ k sub, subscribers c !! k = Some sub →
    sub_messageId sub = k ∧ 0 ≤ k < messageId c.

Definition requests_ok (c : Controller) : Prop :=
  0 ≤ messageId c ∧ req_id <$> stdin c = seqZ 0 (messageId c).

(** The two together. *)
Definition session_ok (c : Controller) : Prop := requests_ok c ∧ registry_ok c.

(** Subject handles follow the ids: the call with id [k] owns the subject
    with handle [k]. *)
Definition handles_ok (c : Controller) : Prop :=
  messageId c = Z.of_nat (List.length (subjects c))
  ∧ ∀ k sub, subscribers c !! k = Some sub → Z.of_nat (sub_subject sub) = k.

Definition good (c : Controller) : Prop := session_ok c ∧ handles_ok c.

(** The call [id] is registered with the sink [sub], and its subject is
    in the state [s]. *)
Definition call_pending (c : Controller) (id : Z) (sub : Subscriber)
    (s : Subject) : Prop :=
  subscribers c !! id = Some sub ∧ subjects c !! sub_subject sub = Some s.

(** A subject that has only passed values on so far. *)
Definition open_subject (s : Subject) : Prop :=
  isStopped s = false ∧ Forall (λ n, ∃ v, n = NNext v) (emitted s).

(** Traffic that does not concern the call [id]. *)
Definition foreign (id : Z) (e : Event) : Prop :=
  match e with
  | Request _ _ _ => True
  | Line res => msg_id res ≠ id
  end.

(** ** Sample schemas, contracts and traffic *)

(** Two schemas: [z.any()] and [z.number()]. *)
Definition z_any : ZodSchema := mkZodSchema Some.
Definition z_number : ZodSchema :=
  mkZodSchema (λ v, match v with JNum _ => Some v | _ => None end).

(** Two calls whose responses arrive interleaved line by line. *)
Definition interleaved : list Event :=
  [ Request "f" [] z_any;
    Request "g" [JNum 2] z_any;
    Line (Yield 0 (JNum 7));
    Line (Yield 1 (JStr "a"));
    Line (Yield 0 (JNum 8));
    Line (Completion 1);
    Line (Completion 0) ].

Definition yield_line : string := lit "{'id':1,'yield':1}\n".
Definition yield_text : string := lit "{'id':1,'yield':1}".

(** A contract with one method declared to return a [Subject]. *)
Definition streaming_contract : gmap string ZodFunction :=
  {[ "tokens" := mkZodFunction z_any true ]}.

(** A contract that declares [greet] only. *)
Definition greeting_contract : gmap string ZodFunction :=
  {[ "greet" := mkZodFunction z_any false ]}.

(** The first schema expects a number of [count]; the second would accept
    anything, and declares [words] besides. *)
Definition first_schema : gmap string ZodFunction :=
  {[ "count" := mkZodFunction z_number false ]}.

(** ** What a session is observed to do *)

(** The calls of a trace, in the order they are made. *)
Fixpoint calls_of (trace : list Action) : list (string * list json) :=
  match trace with
  | [] => []
  | Call method args _ :: rest => (method, args) :: calls_of rest
  | Data _ :: rest => calls_of rest
  end.

(** The request of the [i]-th call made after [first] others. *)
Definition request_of (first : Z) (i : nat) (call : string * list json)
    : CallRequest :=
  mkCallRequest (first + Z.of_nat i) call.1 call.2.

Definition is_terminal (n : Notification) : Prop :=
  n = NComplete ∨ ∃ e, n = NError e.

(** The life of a subject: values, then at most one terminal notification,
    after which it is stopped. *)
Definition subject_wf (s : Subject) : Prop :=
  open_subject s
  ∨ (isStopped s = true
     ∧ ∃ vs t, emitted s = (NNext <$> vs) ++ [t] ∧ is_terminal t).

(** The values a remote method hands over before it ends, and how it
    ends. *)
Definition yields (o : PyOutcome) : list json :=
  match o with
  | PyReturn result => [result]
  | PyGenerator items _ => items
  | PyRaise _ => []
  | PyAbort items => items
  end.

(** No notification ends a request during which the interpreter exits. *)
Definition ending (o : PyOutcome) : list Notification :=
  match o with
  | PyReturn _ | PyGenerator _ None => [NComplete]
  | PyGenerator _ (Some trace) | PyRaise trace => [NError (join "," trace)]
  | PyAbort _ => []
  end.

(** The items up to the first falsy one. *)
Fixpoint before_falsy (items : list json) : list json :=
  match items with
  | [] => []
  | v :: rest => if truthy v then v :: before_falsy rest else []
  end.

(** What the caller of a method with return type [schema] is notified
    of when the method behaves as [o]. *)
Definition notified (schema : ZodSchema) (o : PyOutcome) : list Notification :=
  (NNext <$> omap (zod_parse schema) (before_falsy (yields o)))
  ++ (if forallb truthy (yields o) then ending o else [NComplete]).

(** ** More about sessions *)

(** The record printed after the yields of a request, if there is one. *)
Definition last_record (id : Z) (o : PyOutcome) : list RpcMessage :=
  match o with
  | PyReturn _ | PyGenerator _ None => [Completion id]
  | PyGenerator _ (Some trace) | PyRaise trace => [error_message id trace]
  | PyAbort _ => []
  end.

(** Every subject of the session is well formed. *)
Definition subjects_wf (c : Controller) : Prop := Forall subject_wf (subjects c).

(** The record a line is decoded to, if it is taken as one. *)
Definition accept (JSON_parse : string -> option RpcMessage) (message : string)
    : option RpcMessage :=
  if startsWith message (lit "{'") then JSON_parse message else None.

(** The warning a line causes, if any. *)
Definition complaint (JSON_parse : string -> option RpcMessage) (message : string)
    : option string :=
  if startsWith message (lit "{'") then
    match JSON_parse message with
    | Some _ => None
    | None => Some ("Could not parse: " +:+ message)
    end
  else None.

Definition add_warnings (ws : list string) (c : Controller) : Controller :=
  mkController (messageId c) (subscribers c) (subjects c) (stdin c) (buffer c)
    (warnings c ++ ws).

(** The text is white space only. *)
Definition all_space (s : string) : bool :=
  forallb is_space (list_ascii_of_string s).

(** ** Calls in flight together *)

(** A call as the caller makes it, and what the remote method does. *)
Record RemoteCall : Type := mkRemoteCall {
  rc_method : string;
  rc_args : list json;
  rc_schema : ZodSchema;
  rc_outcome : PyOutcome;
}.

Definition request_event (rc : RemoteCall) : Event :=
  Request (rc_method rc) (rc_args rc) (rc_schema rc).

(** The loop [for line in sys.stdin] of the hook: the requests are
    answered one after the other, in the order they were written, until
    one of them makes the interpreter exit; [first] is the id of the first
    of them. *)
Fixpoint hook_loop (first : Z) (calls : list RemoteCall) : list RpcMessage :=
  match calls with
  | [] => []
  | rc :: rest =>
      hook first (rc_outcome rc)
      ++ (if exits (rc_outcome rc) then [] else hook_loop (first + 1) rest)
  end.

(** The interpreter is still running when it comes to the [k]-th call. *)
Definition reached (k : nat) (calls : list RemoteCall) : bool :=
  forallb (λ rc, negb (exits (rc_outcome rc))) (take k calls).

(** What the caller of the [k]-th call of a batch is notified of. *)
Definition answer (k : nat) (calls : list RemoteCall) (rc : RemoteCall)
    : list Notification :=
  if reached k calls then notified (rc_schema rc) (rc_outcome rc) else [].

(** The calls of a batch are pending, untouched. *)
Definition batch_pending (c : Controller) (first : Z) (calls : list RemoteCall)
    : Prop :=
  ∀ k rc, calls !! k = Some rc →
    call_pending c (first + Z.of_nat k)
      (mkSubscriber (first + Z.of_nat k) (rc_schema rc)
         (Z.to_nat (first + Z.of_nat k)))
      new_Subject.

(** ** The bridge in use *)

(** What happens to a bridge: a facade is asked for, a method of a proxy
    is invoked, or a subprocess prints a record. *)
Inductive BridgeOp : Type :=
| OController (moduleName : string) (shape : gmap string ZodFunction)
| OInvoke (p : Proxy) (name : string) (args : list json)
| ODeliver (h : nat) (res : RpcMessage).

Definition bridge_step (op : BridgeOp) (b : PyBridge) : PyBridge :=
  match op with
  | OController moduleName shape => (controller moduleName shape b).2
  | OInvoke p name args => (invoke p name args b).2
  | ODeliver h res => deliver h res b
  end.

Definition bridge_run (ops : list BridgeOp) (b : PyBridge) : PyBridge :=
  foldl (λ b op, bridge_step op b) b ops.

(** [close]: the handles of the processes that [kill] is called on, one
    for each value of [this.controllers]; [controller.process] goes
    through the [get] trap of the proxy.  The bridge itself is left as it
    is. *)
Definition close (b : PyBridge) : list nat :=
  omap (λ kv : string * Proxy,
          match get kv.2 "process" with
          | PProcess h => Some h
          | PMethod _ => None
          end)
       (map_to_list (controllers b)).

(** The cached proxies own the processes, one each. *)
Definition bridge_ok (b : PyBridge) : Prop :=
  (λ kv : string * Proxy, px_controller kv.2) <$> map_to_list (controllers b)
    ≡ₚ seq 0 (List.length (processes b))
  ∧ ∀ name, inherited name = true → controllers b !! name = None.

(** ** The start of a controller *)

(** The string operations of the constructor. *)

Definition dq : string := String quote EmptyString.

Fixpoint str_drop (n : nat) (s : string) : string :=
  match n, s with
  | S n, String _ rest => str_drop n rest
  | _, _ => s
  end.

(** The first occurrence of [pat] in [s]: the text before it and the
    text after it. *)
Fixpoint find (pat s : string) : option (string * string) :=
  if String.prefix pat s then Some (EmptyString, str_drop (String.length pat) s)
  else
    match s with
    | EmptyString => None
    | String a rest =>
        match find pat rest with
        | Some (before, after) => Some (String a before, after)
        | None => None
        end
    end.

(** What a replacement string stands for when the pattern is a string:
    [$$] is a dollar, [$&] the match, [$`] the text before it and [$']
    the text after it; there are no groups to refer to. *)
Fixpoint substitution (matched before after rep : string) : string :=
  match rep with
  | String "$" (String "$" rest) =>
      String "$" (substitution matched before after rest)
  | String "$" (String "&" rest) =>
      matched +:+ substitution matched before after rest
  | String "$" (String "`" rest) =>
      before +:+ substitution matched before after rest
  | String "$" (String "'" rest) =>
      after +:+ substitution matched before after rest
  | String a rest => String a (substitution matched before after rest)
  | EmptyString => EmptyString
  end.

(** [s.replace(pat, rep)] for a string [pat] *)
Definition replace (pat rep s : string) : string :=
  match find pat s with
  | Some (before, after) =>
      before +:+ substitution pat before after rep +:+ after
  | None => s
  end.


(** [s.endsWith(suffix)] *)
Fixpoint endsWith (s suffix : string) : bool :=
  if String.eqb s suffix then true
  else
    match s with
    | EmptyString => false
    | String _ rest => endsWith rest suffix
    end.

(** The template [hook], before and after its marker. *)
Definition hook_head : string :=
  "
import sys
import traceback
import json
from typing import Generator

def debug(*args):
    print(*args, file=sys.stderr, flush=True)

# redirect all output to stderr
orig_stdout = sys.stdout
sys.stdout = sys.stderr

".

Definition hook_tail : string :=
  "

try:
    for line in sys.stdin:
        p = None
        try:
            # debug(" +:+ dq +:+ "got: " +:+ dq +:+ ", line)
            p = json.loads(line)
            result = getattr(module, p['method'])(*p['args'])
            # if result is a generator, iterate over it
            if isinstance(result, Generator):
                for r in result:
                    message = {'id': p['id'], 'yield': r}
                    print(json.dumps(message) + '\n', file=orig_stdout, flush=True)
                print(json.dumps({'id': p['id']}) + '\n', file=orig_stdout, flush=True)
            else:
                print(json.dumps({'id': p['id'], 'yield': result}) + '\n', file=orig_stdout, flush=True)
                print(json.dumps({'id': p['id']}) + '\n', file=orig_stdout, flush=True)
        except Exception as e:
            if p is not None:
                message = {'id': p['id'], 'error': traceback.format_exception(*sys.exc_info())}
                print(json.dumps(message) + '\n', file=orig_stdout, flush=True)
            print(" +:+ dq +:+ "Failed nlp method\n" +:+ dq +:+ ", file=sys.stderr, flush=True)
            traceback.print_exception(*sys.exc_info(), file=sys.stderr)
except KeyboardInterrupt:
    sys.exit(0)
".

Definition hook_text : string := hook_head +:+ "{{__load__}}" +:+ hook_tail.

Section Constructor.

(** [JSON.stringify] on strings. *)
Variable JSON_stringify : string -> string.

Definition fromCode (code : string) : string :=
  "
import sys
import types

module = types.ModuleType('my_module')
my_code = " +:+ JSON_stringify code +:+ "
exec(my_code, module.__dict__)
".

(** The statement that loads the module. *)
Definition load (moduleNameOrCode cwd : string) : string :=
  let load :=
    if includes " " moduleNameOrCode then fromCode moduleNameOrCode
    else "import " +:+ moduleNameOrCode +:+ " as module;" in
  if endsWith moduleNameOrCode ".py" then
    "import sys; sys.path.append('" +:+ cwd +:+ "'); import "
      +:+ replace ".py" EmptyString moduleNameOrCode +:+ " as module;"
  else load.

(** The program handed to [python -c]. *)
Definition code (moduleNameOrCode cwd : string) : string :=
  replace "{{__load__}}" (load moduleNameOrCode cwd) hook_text.


End Constructor.

(** ** The wire between the hook and the framer *)

(** What the hook writes to [orig_stdout] for its records: each is
    serialised by [json.dumps] ([dumps]), a line feed is appended, and
    [print] ends the line with another. *)
Fixpoint printed (dumps : RpcMessage → string) (rs : list RpcMessage) : string :=
  match rs with
  | [] => EmptyString
  | r :: rest => dumps r +:+ String LF (String LF (printed dumps rest))
  end.

(** A record survives the wire: its text is one line that starts with an
    object opener, ends with something other than white space, and decodes
    to the record. *)
Definition wire_ok (JSON_parse : string → option RpcMessage)
    (dumps : RpcMessage → string) (r : RpcMessage) : Prop :=
  JSON_parse (dumps r) = Some r
  ∧ startsWith (dumps r) (lit "{'") = true
  ∧ includes LF (dumps r) = false
  ∧ trimEnd (dumps r) = dumps r.

(** The printed text without its last two line feeds, and its lines. *)
Fixpoint separated (dumps : RpcMessage → string) (rs : list RpcMessage) : string :=
  match rs with
  | [] => EmptyString
  | [r] => dumps r
  | r :: rest => dumps r +:+ String LF (String LF (separated dumps rest))
  end.

Fixpoint lines_of (dumps : RpcMessage → string) (rs : list RpcMessage)
    : list string :=
  match rs with
  | [] => [EmptyString]
  | [r] => [dumps r]
  | r :: rest => dumps r :: EmptyString :: lines_of dumps rest
  end.

(** A serialiser in the manner of [json.dumps], for the values of the
    decoder above. *)
Fixpoint dumps_json (v : json) : string :=
  match v with
  | JNull => "null"
  | JBool true => "true"
  | JBool false => "false"
  | JNum n => pretty n
  | JStr s => dq +:+ s +:+ dq
  | JArr items => "[" +:+ join ", " (map dumps_json items) +:+ "]"
  | JObj fields =>
      "{" +:+ join ", "
                (map (λ kv, match kv with
                            | (k, v) => dq +:+ k +:+ dq +:+ ": " +:+ dumps_json v
                            end) fields)
          +:+ "}"
  end.

Definition dumps_field (key : string) (f : option json) : list (string * json) :=
  match f with
  | Some v => [(key, v)]
  | None => []
  end.

Definition dumps (r : RpcMessage) : string :=
  dumps_json (JObj (("id", JNum (msg_id r))
                    :: dumps_field "ready" (msg_ready r)
                    ++ dumps_field "result" (msg_result r)
                    ++ dumps_field "yield" (msg_yield r)
                    ++ dumps_field "error" (msg_error r))).

(** * Properties *)

(** ** The registry of pending calls *)

Lemma subscriber_messageId sub data c :
  messageId (subscriber sub data c) = messageId c.
Proof.
  unfold subscriber.
  repeat case_match; reflexivity.
Qed.

Lemma subscriber_stdin sub data c :
  stdin (subscriber sub data c) = stdin c.
Proof.
  unfold subscriber.
  repeat case_match; reflexivity.
Qed.

Lemma subscriber_buffer sub data c :
  buffer (subscriber sub data c) = buffer c.
Proof.
  unfold subscriber.
  repeat case_match; reflexivity.
Qed.

Lemma subscriber_subscribers sub data c k s :
  subscribers (subscriber sub data c) !! k = Some s →
  subscribers c !! k = Some s.
Proof.
  unfold subscriber.
  repeat case_match; simpl; auto;
    intros [_ Hk]%lookup_delete_Some; exact Hk.
Qed.

Lemma dispatch_messageId res c : messageId (dispatch res c).1 = messageId c.
Proof.
  unfold dispatch. case_match; simpl; auto using subscriber_messageId.
Qed.

Lemma dispatch_stdin res c : stdin (dispatch res c).1 = stdin c.
Proof.
  unfold dispatch. case_match; simpl; auto using subscriber_stdin.
Qed.

Lemma dispatch_buffer res c : buffer (dispatch res c).1 = buffer c.
Proof.
  unfold dispatch. case_match; simpl; auto using subscriber_buffer.
Qed.

Lemma dispatch_subscribers res c k s :
  subscribers (dispatch res c).1 !! k = Some s → subscribers c !! k = Some s.
Proof.
  unfold dispatch. case_match; simpl; eauto using subscriber_subscribers.
Qed.

Lemma registry_ok_new : registry_ok new_Controller.
Proof. intros k sub H. simpl in H. by rewrite lookup_empty in H. Qed.

Lemma registry_ok_send method args schema c :
  requests_ok c → registry_ok c → registry_ok (send method args schema c).2.
Proof.
  intros [Hge _] Hok k sub. simpl.
  intros [[<- <-] | [Hne H]]%lookup_insert_Some.
  - simpl. lia.
  - destruct (Hok _ _ H). split; [done | lia].
Qed.

Lemma registry_ok_dispatch res c :
  registry_ok c → registry_ok (dispatch res c).1.
Proof.
  intros Hok k sub H%dispatch_subscribers.
  rewrite dispatch_messageId. by apply Hok.
Qed.

Lemma requests_ok_new : requests_ok new_Controller.
Proof. split; [done | reflexivity]. Qed.

Lemma requests_ok_send method args schema c :
  requests_ok c → requests_ok (send method args schema c).2.
Proof.
  intros [Hge Hids]. split; simpl; [lia |].
  rewrite fmap_app, Hids, seqZ_app by lia.
  reflexivity.
Qed.

Lemma requests_ok_dispatch res c :
  requests_ok c → requests_ok (dispatch res c).1.
Proof.
  unfold requests_ok. by rewrite dispatch_messageId, dispatch_stdin.
Qed.

Lemma session_ok_new : session_ok new_Controller.
Proof. split; [apply requests_ok_new | apply registry_ok_new]. Qed.

Lemma session_ok_send method args schema c :
  session_ok c → session_ok (send method args schema c).2.
Proof. intros [? ?]. split; auto using requests_ok_send, registry_ok_send. Qed.

Lemma session_ok_dispatch res c :
  session_ok c → session_ok (dispatch res c).1.
Proof. intros [? ?]. split; auto using requests_ok_dispatch, registry_ok_dispatch. Qed.

Lemma dispatch_registered res c sub :
  subscribers c !! msg_id res = Some sub →
  dispatch res c = (subscriber sub res c, [mkDelivery res (Some sub)]).
Proof. intros H. unfold dispatch. by rewrite H. Qed.

Lemma dispatch_unregistered res c :
  subscribers c !! msg_id res = None →
  dispatch res c = (c, [mkDelivery res None]).
Proof. intros H. unfold dispatch. by rewrite H. Qed.

(** ** The life of one call *)

Lemma subscriber_variant sub data c :
  subscriber sub data c =
  match variant data with
  | VReady => c
  | VYield y =>
      match zod_parse (sub_schema sub) y with
      | Some v => set_subject (sub_subject sub) (Subject_next v) c
      | None => c
      end
  | VError e =>
      set_subject (sub_subject sub) (Subject_error (js_String e))
        (set_subscribers (delete (sub_messageId sub)) c)
  | VCompletion =>
      set_subject (sub_subject sub) Subject_complete
        (set_subscribers (delete (sub_messageId sub)) c)
  end.
Proof.
  unfold subscriber, variant.
  destruct (truthy_field (msg_ready data)); [done |].
  destruct (truthy_field (msg_yield data)); [done |].
  by destruct (truthy_field (msg_error data)).
Qed.

Lemma send_spec method args schema c h c1 :
  send method args schema c = (h, c1) →
  h = List.length (subjects c)
  ∧ subscribers c1 = <[messageId c := mkSubscriber (messageId c) schema h]> (subscribers c)
  ∧ subjects c1 = subjects c ++ [new_Subject]
  ∧ messageId c1 = messageId c + 1
  ∧ stdin c1 = stdin c ++ [mkCallRequest (messageId c) method args].
Proof. unfold send. intros [= <- <-]. simpl. split_and!; done. Qed.

Lemma dispatch_all_cons res rs c :
  (dispatch_all (res :: rs) c).1 = (dispatch_all rs (dispatch res c).1).1.
Proof.
  simpl. destruct (dispatch res c) as [c1 d1]. simpl.
  by destruct (dispatch_all rs c1).
Qed.

Lemma dispatch_valid res c sub y v :
  subscribers c !! msg_id res = Some sub →
  variant res = VYield y → zod_parse (sub_schema sub) y = Some v →
  (dispatch res c).1 = set_subject (sub_subject sub) (Subject_next v) c.
Proof.
  intros Hsub Hvar Hv. rewrite (dispatch_registered _ _ _ Hsub). simpl.
  by rewrite subscriber_variant, Hvar, Hv.
Qed.

Lemma dispatch_error res c sub e :
  subscribers c !! msg_id res = Some sub → variant res = VError e →
  (dispatch res c).1 =
  set_subject (sub_subject sub) (Subject_error (js_String e))
    (set_subscribers (delete (sub_messageId sub)) c).
Proof.
  intros Hsub Hvar. rewrite (dispatch_registered _ _ _ Hsub). simpl.
  by rewrite subscriber_variant, Hvar.
Qed.

Lemma dispatch_completion res c sub :
  subscribers c !! msg_id res = Some sub → variant res = VCompletion →
  (dispatch res c).1 =
  set_subject (sub_subject sub) Subject_complete
    (set_subscribers (delete (sub_messageId sub)) c).
Proof.
  intros Hsub Hvar. rewrite (dispatch_registered _ _ _ Hsub). simpl.
  by rewrite subscriber_variant, Hvar.
Qed.

Lemma dispatch_dropped res c :
  subscribers c !! msg_id res = None → (dispatch res c).1 = c.
Proof. intros H. by rewrite dispatch_unregistered. Qed.

Lemma stream_set_subject (f : Subject → Subject) h c :
  stream (set_subject h f c) h = from_option emitted [] (f <$> subjects c !! h).
Proof.
  unfold stream. simpl. rewrite list_lookup_alter_eq.
  by destruct (subjects c !! h).
Qed.

Lemma promise_stream c h : promise c h = settle None (stream c h).
Proof. unfold promise, stream. by destruct (subjects c !! h). Qed.

Lemma variant_Yield id V :
  variant (Yield id V) = if truthy V then VYield V else VCompletion.
Proof. unfold variant. simpl. by destruct (truthy V). Qed.

Lemma promise_set_subject (f : Subject → Subject) h c s :
  subjects c !! h = Some s → promise (set_subject h f c) h = toPromise (f s).
Proof.
  intros H. unfold promise. simpl. by rewrite list_lookup_alter_eq, H.
Qed.

Lemma lookup_new_subject (l : list Subject) :
  (l ++ [new_Subject]) !! List.length l = Some new_Subject.
Proof. by rewrite lookup_app_r, Nat.sub_diag by lia. Qed.

(** ** Isolation of calls *)

Lemma subscriber_subjects_length sub data c :
  List.length (subjects (subscriber sub data c)) = List.length (subjects c).
Proof.
  rewrite subscriber_variant.
  destruct (variant data); [done | | |]; try destruct (zod_parse _ _);
    cbn [subjects set_subject set_subscribers]; by rewrite ?length_alter.
Qed.

Lemma good_new : good new_Controller.
Proof.
  split; [apply session_ok_new |]. split; [done |].
  intros k sub H. simpl in H. by rewrite lookup_empty in H.
Qed.

Lemma good_send method args schema c : good c → good (send method args schema c).2.
Proof.
  intros [Hs [Hlen Hh]]. split; [by apply session_ok_send |]. split.
  - cbn. rewrite length_app. cbn. lia.
  - intros k sub. cbn. intros [[<- <-] | [_ H]]%lookup_insert_Some; [by cbn | eauto].
Qed.

Lemma good_dispatch res c : good c → good (dispatch res c).1.
Proof.
  intros [Hs [Hlen Hh]]. split; [by apply session_ok_dispatch |]. split.
  - rewrite dispatch_messageId, Hlen. f_equal.
    unfold dispatch. destruct (subscribers c !! _); [| done].
    cbn. by rewrite subscriber_subjects_length.
  - intros k sub H%dispatch_subscribers. eauto.
Qed.

Lemma good_play es c : good c → good (play es c).1.
Proof.
  revert c. induction es as [| [method args schema | res] rest IH]; intros c Hc; cbn.
  - done.
  - by apply IH, good_send.
  - pose proof (good_dispatch res c Hc) as H1.
    destruct (dispatch res c) as [c1 d1]. specialize (IH c1 H1).
    by destruct (play rest c1).
Qed.

Lemma call_pending_send method args schema c :
  call_pending (send method args schema c).2 (messageId c)
    (mkSubscriber (messageId c) schema (List.length (subjects c))) new_Subject.
Proof. split; cbn; [apply lookup_insert_eq | apply lookup_new_subject]. Qed.

(** A call is not touched by a later [send]... *)
Lemma frame_send method args schema c id sub s :
  good c → call_pending c id sub s →
  call_pending (send method args schema c).2 id sub s.
Proof.
  intros [[_ Hreg] _] [Hsub Hs]. split; cbn.
  - rewrite lookup_insert_ne; [done |]. destruct (Hreg _ _ Hsub). lia.
  - by apply lookup_app_l_Some.
Qed.

(** ... nor by a record that carries another id. *)
Lemma frame_dispatch res c id sub s :
  good c → msg_id res ≠ id → call_pending c id sub s →
  call_pending (dispatch res c).1 id sub s.
Proof.
  intros [[_ Hreg] [_ Hh]] Hne [Hsub Hs]. unfold dispatch.
  destruct (subscribers c !! msg_id res) as [sub' |] eqn:E; [| done].
  cbn [fst]. destruct (Hreg _ _ E) as [Hid' _].
  assert (Hsubj : sub_subject sub' ≠ sub_subject sub).
  { intros Heq. apply Hne. rewrite <- (Hh _ _ E), <- (Hh _ _ Hsub). by rewrite Heq. }
  rewrite subscriber_variant. unfold call_pending.
  destruct (variant res); [done | | |]; try destruct (zod_parse _ _);
    cbn [subscribers subjects set_subject set_subscribers];
    rewrite ?list_lookup_alter_ne, ?lookup_delete_ne by congruence; done.
Qed.

Lemma frame_play es c id sub s :
  good c → Forall (foreign id) es → call_pending c id sub s →
  call_pending (play es c).1 id sub s.
Proof.
  revert c. induction es as [| [method args schema | res] rest IH];
    intros c Hc Hes Hp; cbn.
  - done.
  - apply IH; [by apply good_send | by inversion Hes | by apply frame_send].
  - inversion Hes as [| ? ? Hres Hrest]; subst.
    pose proof (good_dispatch res c Hc) as H1.
    pose proof (frame_dispatch res c id sub s Hc Hres Hp) as H2.
    destruct (dispatch res c) as [c1 d1]. specialize (IH c1 H1 Hrest H2).
    by destruct (play rest c1).
Qed.

(** ** Correlation ids *)

(** A property of controllers kept by [dispatch], [console.warn] and the
    buffer updates is kept by [read]. *)
Section FramerInvariant.

Variable JSON_parse : string -> option RpcMessage.
Variable P : Controller → Prop.
Hypothesis P_dispatch : ∀ res c, P c → P (dispatch res c).1.
Hypothesis P_warn : ∀ w c, P c → P (warn w c).
Hypothesis P_buffer : ∀ b c, P c → P (set_buffer b c).

Lemma handle_message_keeps message c :
  P c → P (handle_message JSON_parse message c).1.
Proof.
  intros HP. unfold handle_message.
  destruct (negb _); [done |].
  destruct (JSON_parse message); simpl; auto.
Qed.

Lemma handle_messages_keeps messages c :
  P c → P (handle_messages JSON_parse messages c).1.
Proof.
  revert c. induction messages as [| message rest IH]; intros c HP; [done |].
  simpl.
  pose proof (handle_message_keeps message c HP) as H1.
  destruct (handle_message JSON_parse message c) as [c1 d1].
  specialize (IH c1 H1).
  by destruct (handle_messages JSON_parse rest c1).
Qed.

Lemma read_keeps data c : P c → P (read JSON_parse data c).1.
Proof.
  intros HP. unfold read.
  destruct (includes LF data); [| by apply P_buffer].
  match goal with
  | |- context [handle_messages _ ?ms ?c0] =>
      pose proof (handle_messages_keeps ms c0 (P_buffer _ _ HP)) as H1;
      destruct (handle_messages JSON_parse ms c0) as [c' ds]
  end.
  by apply P_buffer.
Qed.

Lemma step_keeps a c :
  (∀ method args schema, P (send method args schema c).2) →
  P c → P (step JSON_parse a c).1.
Proof.
  intros Hsend HP. destruct a; simpl; [apply Hsend | by apply read_keeps].
Qed.

End FramerInvariant.

Lemma session_ok_step JSON_parse a c :
  session_ok c → session_ok (step JSON_parse a c).1.
Proof.
  intros Hok. apply (step_keeps JSON_parse session_ok); [| | | | done].
  - intros res c0 [? ?]. split; auto using requests_ok_dispatch, registry_ok_dispatch.
  - intros w c0 Hc. exact Hc.
  - intros b c0 Hc. exact Hc.
  - intros method args schema. destruct Hok.
    split; auto using requests_ok_send, registry_ok_send.
Qed.

Lemma run_app JSON_parse t1 t2 c :
  (run JSON_parse (t1 ++ t2) c).1 =
  (run JSON_parse t2 (run JSON_parse t1 c).1).1.
Proof.
  revert c. induction t1 as [| a t1 IH]; intros c; [done |].
  simpl. destruct (step JSON_parse a c) as [c1 d1]. specialize (IH c1).
  destruct (run JSON_parse (t1 ++ t2) c1), (run JSON_parse t1 c1). simpl in *.
  rewrite IH. by destruct (run JSON_parse t2 _).
Qed.

Lemma session_ok_run JSON_parse trace c :
  session_ok c → session_ok (run JSON_parse trace c).1.
Proof.
  revert c. induction trace as [| a rest IH]; intros c Hok; [done |].
  simpl. pose proof (session_ok_step JSON_parse a c Hok) as H1.
  destruct (step JSON_parse a c) as [c1 d1]. specialize (IH c1 H1).
  by destruct (run JSON_parse rest c1).
Qed.

Lemma step_messageId JSON_parse a c :
  messageId (step JSON_parse a c).1 =
  messageId c + (if is_Call a then 1 else 0).
Proof.
  destruct a; simpl; [done |].
  rewrite Z.add_0_r.
  apply (read_keeps JSON_parse (λ c', messageId c' = messageId c)); auto.
  intros res c0 <-. apply dispatch_messageId.
Qed.

Lemma run_messageId JSON_parse trace c :
  messageId (run JSON_parse trace c).1 = messageId c + Z.of_nat (calls trace).
Proof.
  revert c. induction trace as [| a rest IH]; intros c; [simpl; unfold calls; simpl; lia |].
  simpl. pose proof (step_messageId JSON_parse a c) as H1.
  destruct (step JSON_parse a c) as [c1 d1]. specialize (IH c1).
  destruct (run JSON_parse rest c1) as [c2 d2]. simpl in *.
  rewrite IH, H1. unfold calls. simpl. destruct (is_Call a); simpl; lia.
Qed.

(** C9 — Within one session the calls are given the correlation ids 0, 1,
    2, ... in the order they are made; no id is given twice; and at every
    moment the pending calls have pairwise distinct ids, all of them below
    the next id, so that a new call never takes the place of a pending one. *)
Theorem correlation_ids_fresh (JSON_parse : string -> option RpcMessage)
    (trace : list Action) :
  let c := (run JSON_parse trace new_Controller).1 in
  req_id <$> stdin c = seqZ 0 (Z.of_nat (calls trace))
  ∧ NoDup (req_id <$> stdin c)
  ∧ messageId c = Z.of_nat (calls trace)
  ∧ NoDup ((λ kv, sub_messageId kv.2) <$> map_to_list (subscribers c))
  ∧ (∀ k sub, subscribers c !! k = Some sub →
       sub_messageId sub = k ∧ 0 ≤ k < messageId c)
  ∧ subscribers c !! messageId c = None.
Proof.
  intros c.
  assert (Hok : session_ok c).
  { apply session_ok_run. split; [apply requests_ok_new | apply registry_ok_new]. }
  assert (Hid : messageId c = Z.of_nat (calls trace)).
  { unfold c. rewrite run_messageId. simpl. lia. }
  destruct Hok as [[Hge Hids] Hreg].
  split_and!.
  - by rewrite Hids, Hid.
  - rewrite Hids. apply NoDup_seqZ.
  - done.
  - assert (Heq : (λ kv : Z * Subscriber, sub_messageId kv.2) <$> map_to_list (subscribers c)
                  = (map_to_list (subscribers c)).*1).
    { apply list_fmap_ext. intros i [k sub] Hi. simpl.
      apply list_elem_of_lookup_2, elem_of_map_to_list in Hi.
      by destruct (Hreg _ _ Hi). }
    rewrite Heq. apply NoDup_fst_map_to_list.
  - done.
  - destruct (subscribers c !! messageId c) as [sub |] eqn:E; [| done].
    destruct (Hreg _ _ E). lia.
Qed.

(** ** Dispatch by correlation id *)

Lemma received_cons m d ds :
  received m (d :: ds) =
  if decide (sub_messageId <$> dl_sink d = Some m)
  then dl_msg d :: received m ds else received m ds.
Proof.
  unfold received. rewrite filter_cons. by case_decide.
Qed.

(** A sink is only ever handed records that carry its own id, the id
    whose subject it feeds. *)
Lemma play_own_id es c d sub :
  good c → d ∈ (play es c).2 → dl_sink d = Some sub →
  msg_id (dl_msg d) = sub_messageId sub
  ∧ msg_id (dl_msg d) = Z.of_nat (sub_subject sub).
Proof.
  revert c. induction es as [| [method args schema | res] rest IH]; intros c Hok; simpl.
  - by intros ?%elem_of_nil.
  - apply IH. by apply good_send.
  - pose proof (good_dispatch res c Hok) as Hok1.
    unfold dispatch in *.
    destruct (subscribers c !! msg_id res) as [s |] eqn:E; simpl in *;
      specialize (IH _ Hok1);
      destruct (play rest _) as [c2 d2]; simpl in *;
      intros [-> | Hin]%elem_of_cons Hs; simpl in *; auto; [| done].
    injection Hs as <-. destruct Hok as [[_ Hreg] [_ Hh]].
    split; [by destruct (Hreg _ _ E) | by rewrite (Hh _ _ E)].
Qed.

(** The call made [k]-th gets the id [k] and the subject with handle [k]. *)
Lemma send_returns_id method args schema c :
  good c →
  Z.of_nat (send method args schema c).1 = messageId c.
Proof. intros [_ [Hlen _]]. simpl. by rewrite Hlen. Qed.

Lemma play_received es c m :
  session_ok c → matched es c →
  received m (play es c).2 = filter (λ res, msg_id res = m) (lines es).
Proof.
  revert c. induction es as [| [method args schema | res] rest IH]; intros c Hok; simpl.
  - done.
  - intros Hm. apply IH; [by apply session_ok_send | done].
  - intros [[sub E] Hm].
    pose proof (session_ok_dispatch res c Hok) as Hok1.
    specialize (IH _ Hok1 Hm).
    rewrite (dispatch_registered _ _ _ E) in *. simpl in *.
    destruct (play rest _) as [c2 d2]. simpl in *.
    rewrite received_cons, filter_cons, IH. simpl.
    destruct Hok as [_ Hreg]. destruct (Hreg _ _ E) as [-> _].
    repeat case_decide; congruence.
Qed.

Lemma received_app m d1 d2 :
  received m (d1 ++ d2) = received m d1 ++ received m d2.
Proof. unfold received. by rewrite filter_app, fmap_app. Qed.

Lemma play_app es1 es2 c :
  play (es1 ++ es2) c =
  let (c1, d1) := play es1 c in
  let (c2, d2) := play es2 c1 in
  (c2, d1 ++ d2).
Proof.
  revert c. induction es1 as [| [method args schema | res] es1 IH]; intros c;
    cbn [app play].
  - by destruct (play es2 c).
  - apply IH.
  - destruct (dispatch res c) as [c0 d0]. rewrite IH.
    destruct (play es1 c0) as [c1 d1]. destruct (play es2 c1) as [c2 d2].
    by rewrite app_assoc.
Qed.

Lemma play_messageId_le es c : messageId c ≤ messageId (play es c).1.
Proof.
  revert c. induction es as [| [method args schema | res] es IH]; intros c;
    cbn [play].
  - done.
  - specialize (IH (send method args schema c).2). cbn in *. lia.
  - pose proof (dispatch_messageId res c) as H.
    specialize (IH (dispatch res c).1).
    destruct (dispatch res c) as [c1 d1]. cbn [fst] in *.
    destruct (play es c1) as [c2 d2]. cbn [fst] in *. lia.
Qed.

(** The callback acts on its own subject and on nothing else. *)
Lemma sink_effect_variant schema s res :
  sink_effect schema s res =
  match variant res with
  | VReady => s
  | VYield y =>
      match zod_parse schema y with
      | Some v => Subject_next v s
      | None => s
      end
  | VError e => Subject_error (js_String e) s
  | VCompletion => Subject_complete s
  end.
Proof.
  unfold sink_effect. rewrite subscriber_variant.
  destruct (variant res) as [| y | e |]; [done | | done | done].
  cbn [sub_schema]. by destruct (zod_parse schema y).
Qed.

Lemma subscriber_subjects sub res c :
  subjects (subscriber sub res c)
  = alter (λ s, sink_effect (sub_schema sub) s res) (sub_subject sub) (subjects c).
Proof.
  rewrite subscriber_variant.
  destruct (variant res) as [| y | e |] eqn:Hv.
  - symmetry. apply list_alter_id. intros s. by rewrite sink_effect_variant, Hv.
  - destruct (zod_parse (sub_schema sub) y) as [v |] eqn:Hp.
    + cbn [subjects set_subject]. apply list_alter_ext; [| done].
      intros s _. by rewrite sink_effect_variant, Hv, Hp.
    + symmetry. apply list_alter_id. intros s.
      by rewrite sink_effect_variant, Hv, Hp.
  - cbn [subjects set_subject set_subscribers]. apply list_alter_ext; [| done].
    intros s _. by rewrite sink_effect_variant, Hv.
  - cbn [subjects set_subject set_subscribers]. apply list_alter_ext; [| done].
    intros s _. by rewrite sink_effect_variant, Hv.
Qed.

Lemma subscriber_registry sub res c :
  subscribers (subscriber sub res c)
  = if unsubscribes res then delete (sub_messageId sub) (subscribers c)
    else subscribers c.
Proof.
  rewrite subscriber_variant. unfold unsubscribes.
  destruct (variant res) as [| y | e |]; [done | | done | done].
  by destruct (zod_parse (sub_schema sub) y).
Qed.

(** No record is handed to the sink of a call that has not been made. *)
Lemma received_future es c id :
  good c → messageId (play es c).1 ≤ id → received id (play es c).2 = [].
Proof.
  revert c. induction es as [| [method args schema | res] es IH]; intros c Hok;
    cbn [play].
  - done.
  - apply IH. by apply good_send.
  - pose proof (good_dispatch res c Hok) as Hok1.
    pose proof (play_messageId_le es (dispatch res c).1) as Hle.
    rewrite dispatch_messageId in Hle.
    specialize (IH (dispatch res c).1 Hok1).
    assert (Hr1 : messageId c ≤ id → received id (dispatch res c).2 = []).
    { intros Hle1. unfold dispatch.
      destruct (subscribers c !! msg_id res) as [sub |] eqn:E; cbn [snd];
        rewrite received_cons; cbn; case_decide as Heq; try done.
      destruct Hok as [[_ Hreg] _]. destruct (Hreg _ _ E) as [Hown Hlt].
      injection Heq as Heq. lia. }
    destruct (dispatch res c) as [c1 d1]. cbn [fst snd] in *.
    destruct (play es c1) as [c2 d2]. cbn [fst snd] in *.
    intros Hfin. rewrite received_app, Hr1, IH by lia. done.
Qed.

(** A call that is over is handed nothing more, and its subject is left as
    it is. *)
Lemma play_finished es c id s :
  good c → 0 ≤ id < messageId c → subscribers c !! id = None →
  subjects c !! Z.to_nat id = Some s →
  received id (play es c).2 = []
  ∧ subjects (play es c).1 !! Z.to_nat id = Some s.
Proof.
  revert c. induction es as [| [method args schema | res] es IH];
    intros c Hok Hid Hnone Hs; cbn [play].
  - done.
  - apply IH.
    + by apply good_send.
    + cbn. lia.
    + cbn. rewrite lookup_insert_ne by lia. done.
    + cbn. rewrite lookup_app_l; [done |]. by eapply lookup_lt_Some.
  - pose proof (good_dispatch res c Hok) as Hok1.
    assert (Hnone1 : subscribers (dispatch res c).1 !! id = None).
    { destruct (subscribers (dispatch res c).1 !! id) as [sub |] eqn:E; [| done].
      apply dispatch_subscribers in E. congruence. }
    assert (Hs1 : subjects (dispatch res c).1 !! Z.to_nat id = Some s
                  ∧ received id (dispatch res c).2 = []).
    { unfold dispatch.
      destruct (subscribers c !! msg_id res) as [sub |] eqn:E; cbn [fst snd].
      - destruct Hok as [[_ Hreg] [_ Hh]].
        destruct (Hreg _ _ E) as [Hown _]. pose proof (Hh _ _ E) as Hhandle.
        assert (msg_id res ≠ id) by congruence.
        split.
        + rewrite subscriber_subjects, list_lookup_alter_ne; [done | lia].
        + rewrite received_cons. cbn. case_decide as Heq; [| done].
          injection Heq as Heq. congruence.
      - split; [done |]. rewrite received_cons. cbn. by case_decide. }
    destruct Hs1 as [Hs1 Hr1].
    destruct (IH (dispatch res c).1) as [IH1 IH2];
      [done | by rewrite dispatch_messageId | done | done |].
    destruct (dispatch res c) as [c1 d1]. cbn [fst snd] in *.
        destruct (play es c1) as [c2 d2].
    cbn [fst snd] in *. by rewrite received_app, Hr1, IH1.
Qed.

(** A pending call is handed the records of its id up to the one that ends
    it, and its subject is what its callback makes of them. *)
Lemma play_pending es c id sub s :
  good c → call_pending c id sub s →
  received id (play es c).2
  = until_unsubscribed (filter (λ res, msg_id res = id) (lines es))
  ∧ subjects (play es c).1 !! sub_subject sub
    = Some (foldl (sink_effect (sub_schema sub)) s (received id (play es c).2)).
Proof.
  revert c s. induction es as [| [method args schema | res] es IH];
    intros c s Hok Hp; cbn [play lines].
  - by destruct Hp.
  - apply IH; [by apply good_send | by apply frame_send].
  - pose proof (good_dispatch res c Hok) as Hok1.
    destruct (decide (msg_id res = id)) as [Hres | Hres].
    + destruct Hp as [Hsub Hs].
      pose proof Hok as [[_ Hreg] [_ Hh]].
      destruct (Hreg _ _ Hsub) as [Hown Hid]. pose proof (Hh _ _ Hsub) as Hhandle.
      assert (E : subscribers c !! msg_id res = Some sub) by (by rewrite Hres).
      rewrite filter_cons_True by done. cbn [until_unsubscribed].
      assert (Hs1 : subjects (dispatch res c).1 !! sub_subject sub
                    = Some (sink_effect (sub_schema sub) s res)).
      { rewrite (dispatch_registered _ _ _ E). cbn [fst].
        by rewrite subscriber_subjects, list_lookup_alter_eq, Hs. }
      assert (Hr1 : received id (dispatch res c).2 = [res]).
      { rewrite (dispatch_registered _ _ _ E). cbn [snd].
        rewrite received_cons. cbn. rewrite Hown.
        case_decide; [done | congruence]. }
      assert (Hsubs : subscribers (dispatch res c).1
                      = if unsubscribes res then delete id (subscribers c)
                        else subscribers c).
      { rewrite (dispatch_registered _ _ _ E). cbn [fst].
        by rewrite subscriber_registry, Hown. }
      destruct (unsubscribes res) eqn:Hend.
      * destruct (play_finished es (dispatch res c).1 id
                    (sink_effect (sub_schema sub) s res)) as [F1 F2].
        { done. }
        { by rewrite dispatch_messageId. }
        { rewrite Hsubs. apply lookup_delete_eq. }
        { by rewrite <- Hhandle, Nat2Z.id. }
        rewrite <- Hhandle, Nat2Z.id in F2. rewrite <- Hhandle in F1.
        rewrite <- Hhandle in Hr1.
        destruct (dispatch res c) as [c1 d1]. cbn [fst snd] in *.
        destruct (play es c1) as [c2 d2].
        cbn [fst snd] in *. rewrite <- Hhandle.
        by rewrite received_app, Hr1, F1.
      * destruct (IH (dispatch res c).1 (sink_effect (sub_schema sub) s res))
          as [IH1 IH2]; [done | split; [by rewrite Hsubs | done] |].
        destruct (dispatch res c) as [c1 d1]. cbn [fst snd] in *.
        destruct (play es c1) as [c2 d2].
        cbn [fst snd] in *. by rewrite received_app, Hr1, IH1, IH2, IH1.
    + rewrite filter_cons_False by done.
      destruct (IH (dispatch res c).1 s) as [IH1 IH2];
        [done | by apply frame_dispatch |].
      assert (Hr1 : received id (dispatch res c).2 = []).
      { unfold dispatch.
        destruct (subscribers c !! msg_id res) as [sub' |] eqn:E; cbn [snd];
          rewrite received_cons; cbn; case_decide as Heq; try done.
        destruct Hok as [[_ Hreg] _]. destruct (Hreg _ _ E) as [Hown _].
        injection Heq as Heq. congruence. }
      destruct (dispatch res c) as [c1 d1]. cbn [fst snd] in *.
        destruct (play es c1) as [c2 d2].
      cbn [fst snd] in *. by rewrite received_app, Hr1.
Qed.

(** C1 — For every sequence of interleaved call requests and decoded
    response lines, and every call made in it: every record handed to a
    sink carries the id that sink was registered with, the id of the
    subject it feeds; the sink of the call is handed the lines that
    follow the call and carry its id, in the order in which they were
    processed, up to the first one that its callback takes as the end of
    the call, and no others; when each line carries the id of a call
    registered at the time, these are exactly the lines with the id of
    the call; and the subject of the call is in the state in which its
    callback leaves a new subject when it is called with the records
    handed to the sink, one after the other. *)
Theorem dispatch_by_id (before after : list Event) (method : string)
    (args : list json) (schema : ZodSchema) :
  let es := before ++ Request method args schema :: after in
  let c := (play before new_Controller).1 in
  let id := messageId c in
  let subject := (send method args schema c).1 in
  let (c', ds) := play es new_Controller in
  (∀ d sub, d ∈ ds → dl_sink d = Some sub →
     msg_id (dl_msg d) = sub_messageId sub
     ∧ msg_id (dl_msg d) = Z.of_nat (sub_subject sub))
  ∧ received id ds
    = until_unsubscribed (filter (λ res, msg_id res = id) (lines after))
  ∧ (matched es new_Controller →
     ∀ m, received m ds = filter (λ res, msg_id res = m) (lines es))
  ∧ subjects c' !! subject
    = Some (foldl (sink_effect schema) new_Subject (received id ds)).
Proof.
  intros es c id subject.
  pose proof (λ d sub, play_own_id es new_Controller d sub good_new) as Hown.
  pose proof (λ Hm m, play_received es new_Controller m session_ok_new Hm) as Hall.
  assert (Hc : good c) by apply good_play, good_new.
  pose proof (received_future before new_Controller id good_new) as Hbefore.
  destruct (play_pending after (send method args schema c).2 id
              (mkSubscriber id schema subject) new_Subject) as [Hrecv Hsubj];
    [by apply good_send | apply call_pending_send |].
  unfold es in *. clear es. rewrite play_app in *. fold c in Hbefore.
  destruct (play before new_Controller) as [c0 d1]. cbn [fst snd] in *.
  subst c. cbn [play] in *.
  destruct (play after (send method args schema c0).2) as [c2 d2].
  cbn [fst snd sub_subject sub_schema] in *.
  split_and!; [done | | done |].
  - rewrite received_app, Hbefore, Hrecv by (unfold id; lia). done.
  - rewrite received_app, Hbefore by (unfold id; lia). done.
Qed.

(** Two calls whose answers are interleaved: the second is handed its own
    two records, and its subject has passed on "a" and completed. *)
Lemma dispatch_by_id_witness :
  let (c', ds) := play interleaved new_Controller in
  matched interleaved new_Controller
  ∧ received 0 ds = [Yield 0 (JNum 7); Yield 0 (JNum 8); Completion 0]
  ∧ received 1 ds = [Yield 1 (JStr "a"); Completion 1]
  ∧ subjects c' !! 1%nat = Some (mkSubject true [NNext (JStr "a"); NComplete]).
Proof.
  assert (Hm : matched interleaved new_Controller).
  { vm_compute. repeat split; eexists; reflexivity. }
  pose proof (dispatch_by_id [Request "f" [] z_any]
                [ Line (Yield 0 (JNum 7)); Line (Yield 1 (JStr "a"));
                  Line (Yield 0 (JNum 8)); Line (Completion 1);
                  Line (Completion 0) ] "g" [JNum 2] z_any) as H.
  cbv zeta in H. change ([Request "f" [] z_any] ++ _) with interleaved in H.
  destruct (play interleaved new_Controller) as [c' ds].
  destruct H as (_ & _ & Hall & Hsubj).
  split; [exact Hm |].
  split; [exact (Hall Hm 0) |].
  split; [exact (Hall Hm 1) |].
  rewrite (Hall Hm) in Hsubj. exact Hsubj.
Defined.

(** ** Errors raised by the remote method *)

Lemma js_String_trace (trace : list string) :
  js_String (JArr (map JStr trace)) = join "," trace.
Proof.
  simpl. f_equal.
  induction trace as [| line rest IH]; [done |]. simpl. by rewrite IH.
Qed.


Lemma settle_open value ns e :
  Forall (λ n, ∃ v, n = NNext v) ns → settle value (ns ++ [NError e]) = Rejected e.
Proof.
  intros H. revert value. induction H as [| n ns [v ->] _ IH]; intros value; [done |].
  apply IH.
Qed.

Lemma dispatch_yield_pending res c id sub s y :
  msg_id res = id → variant res = VYield y →
  call_pending c id sub s → open_subject s →
  ∃ s', call_pending (dispatch res c).1 id sub s' ∧ open_subject s'.
Proof.
  intros <- Hvar [Hsub Hs] [Hopen Hnexts].
  rewrite (dispatch_registered _ _ _ Hsub). cbn [fst].
  rewrite subscriber_variant, Hvar.
  destruct (zod_parse (sub_schema sub) y) as [v |]; [| by exists s].
  exists (Subject_next v s). split; [split |].
  - done.
  - cbn. by rewrite list_lookup_alter_eq, Hs.
  - unfold Subject_next. rewrite Hopen. split; [done |].
    cbn. apply Forall_app. split; [done |]. constructor; eauto.
Qed.

Lemma dispatch_yields_pending items c id sub s :
  Forall (λ v, truthy v = true) items →
  call_pending c id sub s → open_subject s →
  ∃ s', call_pending (dispatch_all (map (Yield id) items) c).1 id sub s'
        ∧ open_subject s'.
Proof.
  intros Hitems. revert c s.
  induction Hitems as [| v items Hv _ IH]; intros c s Hp Ho; [by exists s |].
  cbn [map]. rewrite dispatch_all_cons.
  destruct (dispatch_yield_pending (Yield id v) c id sub s v) as (s1 & Hp1 & Ho1);
    [done | by rewrite variant_Yield, Hv | done | done |].
  by apply (IH _ s1).
Qed.

Lemma dispatch_all_app rs1 rs2 c :
  (dispatch_all (rs1 ++ rs2) c).1 = (dispatch_all rs2 (dispatch_all rs1 c).1).1.
Proof.
  revert c. induction rs1 as [| res rs1 IH]; intros c; [done |].
  cbn [app]. by rewrite !dispatch_all_cons, IH.
Qed.

(** The error of a generator that raises after it has produced items
    rejects the promise as well, as long as the host reads each item as a
    Yield: valid items are passed on, invalid ones are dropped. *)
Lemma generator_error_rejects (method : string) (args : list json)
    (schema : ZodSchema) (c : Controller) (items : list json)
    (trace : list string) :
  Forall (λ v, truthy v = true) items →
  let (subject, c1) := send method args schema c in
  let printed := hook (messageId c) (PyGenerator items (Some trace)) in
  promise (dispatch_all printed c1).1 subject = Rejected (join "," trace).
Proof.
  intros Hitems.
  destruct (send method args schema c) as [subject c1] eqn:Esend.
  assert (Hs : subject = List.length (subjects c)) by (by injection Esend as <- _).
  assert (Hc1 : c1 = (send method args schema c).2) by (by rewrite Esend).
  set (sub := mkSubscriber (messageId c) schema subject).
  destruct (dispatch_yields_pending items c1 (messageId c) sub new_Subject Hitems)
    as (s & [Hsub Hsubj] & [Hopen Hnexts]).
  { subst c1 sub subject. apply call_pending_send. }
  { split; [done | constructor]. }
  cbn [hook]. rewrite dispatch_all_app.
  set (c2 := (dispatch_all (map (Yield (messageId c)) items) c1).1) in *.
  rewrite dispatch_all_cons. cbn [dispatch_all fst].
  rewrite (dispatch_error _ _ sub (JArr (map JStr trace))); [| done | done].
  rewrite (promise_set_subject _ _ _ s) by done.
  unfold toPromise, Subject_error. rewrite Hopen. cbn [emitted].
  by rewrite settle_open, js_String_trace.
Qed.





(** ** Return values *)

(** A returned value that is truthy and passes validation reaches the
    caller: one [next] with the validated value, then [complete]. *)
Lemma truthy_return_resolves (method : string) (args : list json)
    (schema : ZodSchema) (c : Controller) (V v : json) :
  truthy V = true → zod_parse schema V = Some v →
  let (subject, c1) := send method args schema c in
  let c2 := (dispatch_all (hook (messageId c) (PyReturn V)) c1).1 in
  stream c2 subject = [NNext v; NComplete]
  ∧ promise c2 subject = Fulfilled (Some v).
Proof.
  intros HV Hv.
  destruct (send method args schema c) as [subject c1] eqn:Esend.
  destruct (send_spec _ _ _ _ _ _ Esend) as (Hs & Hsubs & Hsubj & _).
  cbn [hook]. set (c2 := (dispatch_all _ c1).1).
  assert (Hstream : stream c2 subject = [NNext v; NComplete]).
  { unfold c2. rewrite !dispatch_all_cons. cbn [dispatch_all fst].
    rewrite (dispatch_valid (Yield (messageId c) V) c1
               (mkSubscriber (messageId c) schema subject) V v);
      [| by rewrite Hsubs; apply lookup_insert_eq
       | by rewrite variant_Yield, HV | done ].
    rewrite (dispatch_completion _ _ (mkSubscriber (messageId c) schema subject));
      [| by cbn; rewrite Hsubs; apply lookup_insert_eq | done ].
    cbn [sub_subject sub_messageId].
    rewrite stream_set_subject. cbn [subjects set_subscribers set_subject].
    rewrite list_lookup_alter_eq, Hsubj, Hs, lookup_new_subject. done. }
  split; [done |]. by rewrite promise_stream, Hstream.
Qed.

(** A returned value that is falsy is read as a Completion: the promise
    resolves with [undefined]. *)
Lemma falsy_return_resolves_undefined (method : string) (args : list json)
    (schema : ZodSchema) (c : Controller) (V : json) :
  truthy V = false →
  let (subject, c1) := send method args schema c in
  let c2 := (dispatch_all (hook (messageId c) (PyReturn V)) c1).1 in
  variant (Yield (messageId c) V) = VCompletion
  ∧ stream c2 subject = [NComplete]
  ∧ promise c2 subject = Fulfilled None.
Proof.
  intros HV.
  destruct (send method args schema c) as [subject c1] eqn:Esend.
  destruct (send_spec _ _ _ _ _ _ Esend) as (Hs & Hsubs & Hsubj & _).
  cbn [hook]. set (c2 := (dispatch_all _ c1).1).
  assert (Hvar : variant (Yield (messageId c) V) = VCompletion)
    by (by rewrite variant_Yield, HV).
  assert (Hstream : stream c2 subject = [NComplete]).
  { unfold c2. rewrite !dispatch_all_cons. cbn [dispatch_all fst].
    rewrite (dispatch_completion (Yield (messageId c) V) c1
               (mkSubscriber (messageId c) schema subject));
      [| by rewrite Hsubs; apply lookup_insert_eq | done ].
    rewrite dispatch_dropped by (cbn; rewrite Hsubs; apply lookup_delete_eq).
    cbn [sub_subject sub_messageId].
    rewrite stream_set_subject. cbn [subjects set_subscribers].
    rewrite Hsubj, Hs, lookup_new_subject. done. }
  split_and!; [done | done |]. by rewrite promise_stream, Hstream.
Qed.

(** C2, where the code departs from it — A method of a [z.number()] contract
    returns 0. The subprocess prints one Yield carrying 0 and one
    Completion, but the host reads the Yield as a Completion: the caller
    sees no value, and the promise resolves with [undefined] instead of 0. *)
Theorem falsy_return_value_lost :
  let (subject, c1) := send "f" [] z_number new_Controller in
  let printed := hook 0 (PyReturn (JNum 0)) in
  let c2 := (dispatch_all printed c1).1 in
  printed = [Yield 0 (JNum 0); Completion 0]
  ∧ zod_parse z_number (JNum 0) = Some (JNum 0)
  ∧ variant <$> printed = [VCompletion; VCompletion]
  ∧ stream c2 subject = [NComplete]
  ∧ promise c2 subject = Fulfilled None
  ∧ promise c2 subject ≠ Fulfilled (Some (JNum 0)).
Proof. vm_compute. split_and!; done. Qed.

(** ** Validation *)

(** C5 (counterexample) — A call expects a number and the subprocess
    yields the string "abc".  Nothing reaches the caller: the stream stays
    empty and the promise pending, and when the Completion arrives the
    promise resolves with [undefined]; it is never rejected. *)
Lemma validation_failure_not_surfaced :
  let (subject, c1) := send "f" [] z_number new_Controller in
  let c2 := (dispatch (Yield 0 (JStr "abc")) c1).1 in
  let c3 := (dispatch (Completion 0) c2).1 in
  variant (Yield 0 (JStr "abc")) = VYield (JStr "abc")
  ∧ zod_parse z_number (JStr "abc") = None
  ∧ stream c2 subject = []
  ∧ promise c2 subject = Pending
  ∧ stream c3 subject = [NComplete]
  ∧ promise c3 subject = Fulfilled None.
Proof. vm_compute. split_and!; done. Qed.

(** C5, as the code implements it — When the value of a decoded Yield fails
    validation against the expected shape of its call, the failure is
    swallowed: the record changes nothing at all in the session, so that the
    call stays pending with nothing delivered to its caller, and every other
    call in flight is left as it was. *)
Theorem validation_failure_swallowed (res : RpcMessage) (c : Controller)
    (sub : Subscriber) (y : json) :
  subscribers c !! msg_id res = Some sub →
  variant res = VYield y →
  zod_parse (sub_schema sub) y = None →
  (dispatch res c).1 = c.
Proof.
  intros Hsub Hvar Hparse.
  rewrite (dispatch_registered _ _ _ Hsub). simpl.
  by rewrite subscriber_variant, Hvar, Hparse.
Qed.

Lemma validation_failure_swallowed_witness :
  let c := (send "f" [] z_number new_Controller).2 in
  (dispatch (Yield 0 (JStr "abc")) c).1 = c.
Proof.
  intros c.
  apply (validation_failure_swallowed (Yield 0 (JStr "abc")) c
           (mkSubscriber 0 z_number 0) (JStr "abc"));
    reflexivity.
Defined.

(** ** Framing *)

Lemma subscriber_set_buffer sub data b c :
  subscriber sub data (set_buffer b c) = set_buffer b (subscriber sub data c).
Proof.
  rewrite !subscriber_variant.
  destruct (variant data); [done | | done | done].
  by destruct (zod_parse _ _).
Qed.

Lemma dispatch_set_buffer res b c :
  dispatch res (set_buffer b c) =
  (set_buffer b (dispatch res c).1, (dispatch res c).2).
Proof.
  unfold dispatch. cbn [subscribers set_buffer].
  destruct (subscribers c !! msg_id res); [| done].
  cbn [fst snd]. by rewrite subscriber_set_buffer.
Qed.

Section FramerFacts.

Variable JSON_parse : string -> option RpcMessage.

(** A chunk without a line feed is only stored. *)
Lemma read_buffered data c :
  includes LF data = false →
  read JSON_parse data c = (set_buffer (buffer c ++ [data]) c, []).
Proof. intros H. unfold read. by rewrite H. Qed.

(** A chunk with a line feed empties the buffer, whatever follows its
    last line feed. *)
Lemma read_clears_buffer data c :
  includes LF data = true → buffer (read JSON_parse data c).1 = [].
Proof.
  intros H. unfold read. rewrite H.
  by destruct (handle_messages _ _ _).
Qed.

(** A chunk that completes exactly one record. *)
Lemma read_one_record data c text res :
  includes LF data = true →
  split LF (trim (Buffer_concat (buffer c ++ [data]))) = [text] →
  startsWith text (lit "{'") = true →
  JSON_parse text = Some res →
  read JSON_parse data c = (set_buffer [] (dispatch res c).1, (dispatch res c).2).
Proof.
  intros Hnl Hsplit Hstart Hparse. unfold read. rewrite Hnl.
  cbn [buffer set_buffer]. rewrite Hsplit.
  cbn [handle_messages]. unfold handle_message.
  rewrite Hstart, Hparse. cbn [negb].
  rewrite dispatch_set_buffer. cbn [fst snd].
  by rewrite app_nil_r.
Qed.

End FramerFacts.

(** Where the line is cut: before its line feed, or after it. *)
Lemma chunks_at_yield_line (k : nat) :
  match chunks_at k yield_line with
  | [first; second] =>
      (includes LF first = false ∧ includes LF second = true
       ∧ split LF (trim (Buffer_concat [first; second])) = [yield_text])
      ∨ (first = yield_line ∧ second = EmptyString)
  | _ => False
  end.
Proof.
  unfold chunks_at.
  do 19 (destruct k as [| k]; [left; vm_compute; done |]).
  right. split.
  - vm_compute. by destruct k.
  - replace (String.length yield_line - _)%nat with 0%nat by (vm_compute; lia).
    vm_compute. by destruct k.
Qed.

(** C4 — Fed as two chunks cut at any offset [k], the bytes of the line
    [{"id":1,"yield":1}\n] produce exactly one decoded record, the Yield
    with id 1 and value 1, and leave the controller as feeding the line in
    one chunk does. *)
Theorem chunk_boundary_irrelevant (JSON_parse : string -> option RpcMessage)
    (c : Controller) (k : nat) :
  JSON_parse yield_text = Some (Yield 1 (JNum 1)) →
  buffer c = [] →
  let (c2, d2) := read_all JSON_parse (chunks_at k yield_line) c in
  let (c1, d1) := read JSON_parse yield_line c in
  dl_msg <$> d2 = [Yield 1 (JNum 1)]
  ∧ variant (Yield 1 (JNum 1)) = VYield (JNum 1)
  ∧ d2 = d1
  ∧ set_buffer [] c2 = c1
  ∧ Buffer_concat (buffer c2) = EmptyString.
Proof.
  intros Hparse Hbuf.
  assert (Hone : read JSON_parse yield_line c =
                 (set_buffer [] (dispatch (Yield 1 (JNum 1)) c).1,
                  (dispatch (Yield 1 (JNum 1)) c).2)).
  { apply (read_one_record _ _ _ yield_text); [done | | done | done].
    rewrite Hbuf. by vm_compute. }
  assert (Hd : dl_msg <$> (dispatch (Yield 1 (JNum 1)) c).2 = [Yield 1 (JNum 1)]).
  { unfold dispatch. by destruct (subscribers c !! _). }
  pose proof (chunks_at_yield_line k) as Hk.
  destruct (chunks_at k yield_line) as [| first [| second [| ? ?]]]; try done.
  destruct Hk as [(Hfirst & Hsecond & Hsplit) | [-> ->]].
  - cbn [read_all]. rewrite (read_buffered _ _ _ Hfirst), Hbuf. cbn [app].
    rewrite (read_one_record _ second _ yield_text (Yield 1 (JNum 1)));
      [| done | done | done | done].
    rewrite dispatch_set_buffer, Hone. cbn [fst snd].
    rewrite !app_nil_r. done.
  - cbn [read_all]. rewrite Hone.
    rewrite read_buffered by done. cbn [buffer set_buffer app].
    rewrite !app_nil_r. done.
Qed.

Lemma chunk_boundary_irrelevant_witness :
  let c := (send "f" [] z_number (send "g" [] z_any new_Controller).2).2 in
  let (c2, d2) := read_all decode (chunks_at 7 yield_line) c in
  chunks_at 7 yield_line = [lit "{'id':1"; lit ",'yield':1}\n"]
  ∧ dl_msg <$> d2 = [Yield 1 (JNum 1)]
  ∧ stream c2 1 = [NNext (JNum 1)].
Proof.
  intros c.
  pose proof (chunk_boundary_irrelevant decode c 7 eq_refl eq_refl) as H.
  destruct (read_all decode (chunks_at 7 yield_line) c) as [c2 d2] eqn:E2.
  destruct (read decode yield_line c) as [c1 d1].
  destruct H as (H & _).
  split; [reflexivity |]. split; [exact H |].
  injection E2 as <- _. reflexivity.
Defined.

(** C3, where the code departs from it — The subprocess answers one call
    with a Yield and a Completion, and the pipe delivers them in two chunks
    cut inside the Completion record. After the first chunk the buffer is
    empty instead of holding the bytes that follow the last line feed, so
    the Completion is lost: the call stays pending. Delivered in one chunk,
    the same bytes complete the call. *)
Theorem record_after_line_feed_lost :
  let (subject, c0) := send "f" [] z_any new_Controller in
  let first := lit "{'id':0,'yield':5}\n\n{'id':0" in
  let second := lit "}\n\n" in
  let (c1, d1) := read decode first c0 in
  let (c2, d2) := read decode second c1 in
  let (c', d') := read decode (first +:+ second) c0 in
  buffer c1 = []
  ∧ warnings c1 = ["Could not parse: " +:+ lit "{'id':0"]
  ∧ dl_msg <$> d1 = [Yield 0 (JNum 5)]
  ∧ d2 = []
  ∧ promise c2 subject = Pending
  ∧ is_Some (subscribers c2 !! 0)
  ∧ dl_msg <$> d' = [Yield 0 (JNum 5); Completion 0]
  ∧ promise c' subject = Fulfilled (Some (JNum 5)).
Proof. vm_compute. split_and!; eauto. Qed.

(** ** The typed facade *)


(** Whatever the contract declares, the facade never hands out the
    subject itself. *)
Lemma invoke_never_Subject p name args b h s :
  (invoke p name args b).1 ≠ RSubject h s.
Proof.
  unfold invoke. destruct (get p name); [done |].
  unfold method. destruct (px_shape p !! _); [| done].
  destruct (processes b !! _); [| done].
  by destruct (send _ _ _ _).
Qed.


(** C6, where the code departs from it — A contract declares [tokens] as
    returning a [Subject]. Invoking it through the facade writes the request
    to the subprocess at once, but returns the promise
    [subject.toPromise()], not the subject: when the generator yields 1, 2,
    3 the caller gets the last value only. *)
Theorem declared_stream_is_collapsed :
  match controller "nlp" streaming_contract new_PyBridge with
  | (FProxy p, b) =>
      let (r, b1) := invoke p "tokens" [JStr "a b c"] b in
      let printed := hook 0 (PyGenerator [JNum 1; JNum 2; JNum 3] None) in
      let b2 := deliver_all 0 printed b1 in
      returns_Subject <$> px_shape p !! "tokens" = Some true
      ∧ r = RPromise 0 0
      ∧ r ≠ RSubject 0 0
      ∧ stdin <$> processes b1 !! 0%nat
        = Some [mkCallRequest 0 "tokens" [JStr "a b c"]]
      ∧ outcome b2 r = Fulfilled (Some (JNum 3))
  | _ => False
  end.
Proof. vm_compute. split_and!; done. Qed.

Lemma controller_creates moduleName shape b :
  controllers b !! moduleName = None → inherited moduleName = false →
  controller moduleName shape b =
  (FProxy (mkProxy (List.length (processes b)) shape),
   mkPyBridge (<[moduleName := mkProxy (List.length (processes b)) shape]> (controllers b))
              (processes b ++ [new_Controller])).
Proof. intros Hnone Hinh. unfold controller. by rewrite Hnone, Hinh. Qed.


Lemma invoke_undeclared p name args b :
  px_shape p !! name = None → invoke p name args b = (RThrow "TypeError", b).
Proof.
  intros Hnone. unfold invoke. destruct (get p name) eqn:E; [done |].
  unfold get in E. destruct (String.eqb name "process"); [done |].
  injection E as <-. unfold method. by rewrite Hnone.
Qed.

(** C7 (counterexample) — The contract declares [greet] only.  Building
    the facade succeeds, the proxy offers [parse] all the same, and it is
    the call of [parse] that throws. *)
Lemma undeclared_method_accepted_at_construction :
  match controller "nlp" greeting_contract new_PyBridge with
  | (FProxy p, b) =>
      px_shape p !! "parse" = None
      ∧ get p "parse" = PMethod "parse"
      ∧ invoke p "parse" [] b = (RThrow "TypeError", b)
  | _ => False
  end.
Proof. vm_compute. split_and!; done. Qed.

(** C7, as the code implements it — A method name that the contract does not
    declare is not rejected when the facade is built: [controller] builds
    the proxy whatever the contract declares; calling an undeclared name on
    it throws a [TypeError] at that call, and nothing is sent to the
    subprocess. *)
Theorem undeclared_method_throws_when_invoked (moduleName : string)
    (shape : gmap string ZodFunction) (b : PyBridge) :
  controllers b !! moduleName = None → inherited moduleName = false →
  ∃ p b1,
    controller moduleName shape b = (FProxy p, b1)
    ∧ px_shape p = shape
    ∧ ∀ name args b2,
        shape !! name = None → invoke p name args b2 = (RThrow "TypeError", b2).
Proof.
  intros Hnone Hinh. eexists _, _.
  split; [by apply controller_creates |].
  split; [done |].
  intros name args b2 Hname. by apply invoke_undeclared.
Qed.

Lemma undeclared_method_throws_when_invoked_witness :
  ∃ p b1,
    controller "nlp" greeting_contract new_PyBridge = (FProxy p, b1)
    ∧ px_shape p = greeting_contract
    ∧ ∀ name args b2,
        greeting_contract !! name = None →
        invoke p name args b2 = (RThrow "TypeError", b2).
Proof.
  apply (undeclared_method_throws_when_invoked "nlp" greeting_contract new_PyBridge);
    reflexivity.
Defined.

(** ** The bridge registry *)



(** * Further properties of the session *)

(** ** Requests *)

Lemma read_stdin JSON_parse data c : stdin (read JSON_parse data c).1 = stdin c.
Proof.
  apply (read_keeps JSON_parse (λ c', stdin c' = stdin c)); auto.
  intros res c0 <-. apply dispatch_stdin.
Qed.

Lemma run_stdin JSON_parse trace c :
  stdin (run JSON_parse trace c).1 =
  stdin c ++ imap (request_of (messageId c)) (calls_of trace).
Proof.
  revert c. induction trace as [| a rest IH]; intros c.
  - cbn. by rewrite app_nil_r.
  - cbn [run].
    pose proof (step_messageId JSON_parse a c) as Hid.
    destruct (step JSON_parse a c) as [c1 d1] eqn:E. specialize (IH c1).
    destruct (run JSON_parse rest c1) as [c2 d2]. cbn [fst] in *.
    rewrite IH. destruct a as [method args schema | chunk]; cbn in E.
    + injection E as <- <-. cbn [stdin calls_of]. rewrite <- app_assoc. f_equal.
      rewrite imap_cons. cbn [app]. f_equal.
      * unfold request_of. cbn. f_equal. lia.
      * apply imap_ext. intros i call _. unfold request_of. cbn. f_equal. lia.
    + assert (c1 = (read JSON_parse chunk c).1) as -> by (by rewrite E).
      rewrite read_stdin. cbn in Hid. rewrite Hid, Z.add_0_r. done.
Qed.

(** X1 — The requests written to the subprocess are the calls made, each
    written once, in the order of the calls, with its method and arguments
    as given and its rank among the calls as id; processing output never
    writes anything. *)
Theorem requests_are_the_calls (JSON_parse : string -> option RpcMessage)
    (trace : list Action) :
  stdin (run JSON_parse trace new_Controller).1
  = imap (request_of 0) (calls_of trace).
Proof. by rewrite run_stdin. Qed.

(** ** The notifications of a call *)

Lemma subject_wf_new : subject_wf new_Subject.
Proof. left. split; [done | constructor]. Qed.

Lemma open_subject_nexts s :
  open_subject s → ∃ vs, emitted s = NNext <$> vs.
Proof.
  intros [_ H]. induction H as [| n ns [v ->] _ [vs ->]]; [by exists [] |].
  by exists (v :: vs).
Qed.

Lemma nexts_open vs : Forall (λ n, ∃ v, n = NNext v) (NNext <$> vs).
Proof. induction vs; constructor; eauto. Qed.

Lemma subject_wf_next v s : subject_wf s → subject_wf (Subject_next v s).
Proof.
  intros [[Hopen Hn] | [Hstop H]]; unfold Subject_next.
  - rewrite Hopen. left. split; [done |]. cbn.
    apply Forall_app. split; [done |]. constructor; eauto.
  - rewrite Hstop. by right.
Qed.

Lemma subject_wf_error e s : subject_wf s → subject_wf (Subject_error e s).
Proof.
  intros [Ho | [Hstop H]]; unfold Subject_error.
  - destruct (open_subject_nexts s Ho) as [vs Hvs]. destruct Ho as [-> _].
    right. split; [done |]. exists vs, (NError e). cbn. rewrite Hvs.
    split; [done |]. right. eauto.
  - rewrite Hstop. by right.
Qed.

Lemma subject_wf_complete s : subject_wf s → subject_wf (Subject_complete s).
Proof.
  intros [Ho | [Hstop H]]; unfold Subject_complete.
  - destruct (open_subject_nexts s Ho) as [vs Hvs]. destruct Ho as [-> _].
    right. split; [done |]. exists vs, NComplete. cbn. rewrite Hvs.
    split; [done |]. by left.
  - rewrite Hstop. by right.
Qed.

Lemma Forall_alter_keeps {A} (P : A → Prop) (f : A → A) h (l : list A) :
  (∀ x, P x → P (f x)) → Forall P l → Forall P (alter f h l).
Proof.
  intros Hf Hl. apply Forall_lookup_2. intros i x.
  rewrite list_lookup_alter. case_decide as Hi.
  - intros (y & Hy & ->)%fmap_Some. eapply Hf, Forall_lookup_1; eauto.
  - intros Hx. eapply Forall_lookup_1; eauto.
Qed.

Lemma subjects_wf_dispatch res c : subjects_wf c → subjects_wf (dispatch res c).1.
Proof.
  intros Hwf. unfold dispatch.
  destruct (subscribers c !! msg_id res) as [sub |]; [| done].
  cbn [fst]. rewrite subscriber_variant. unfold subjects_wf.
  destruct (variant res); [done | | |]; try destruct (zod_parse _ _);
    cbn [subjects set_subject set_subscribers]; try done;
    apply Forall_alter_keeps;
    auto using subject_wf_next, subject_wf_error, subject_wf_complete.
Qed.

Lemma subjects_wf_step JSON_parse a c :
  subjects_wf c → subjects_wf (step JSON_parse a c).1.
Proof.
  intros Hwf. apply (step_keeps JSON_parse subjects_wf);
    auto using subjects_wf_dispatch.
  intros method args schema. unfold subjects_wf. cbn.
  apply Forall_app. split; [done |]. constructor; [apply subject_wf_new | done].
Qed.

Lemma subjects_wf_run JSON_parse trace c :
  subjects_wf c → subjects_wf (run JSON_parse trace c).1.
Proof.
  revert c. induction trace as [| a rest IH]; intros c Hwf; [done |].
  cbn [run]. pose proof (subjects_wf_step JSON_parse a c Hwf) as H1.
  destruct (step JSON_parse a c) as [c1 d1]. specialize (IH c1 H1).
  by destruct (run JSON_parse rest c1).
Qed.

(** X2 — Whatever calls are made and whatever the subprocess prints, the
    notifications of every subject of the session are values followed by
    at most one terminal notification: nothing follows a completion or an
    error, and a subject never completes or fails twice. *)
Theorem notifications_end_once (JSON_parse : string -> option RpcMessage)
    (trace : list Action) (h : nat) :
  let c := (run JSON_parse trace new_Controller).1 in
  ∃ vs,
    stream c h = NNext <$> vs
    ∨ stream c h = (NNext <$> vs) ++ [NComplete]
    ∨ ∃ e, stream c h = (NNext <$> vs) ++ [NError e].
Proof.
  intros c.
  assert (Hwf : subjects_wf c) by (apply subjects_wf_run, Forall_nil_2).
  unfold stream. destruct (subjects c !! h) as [s |] eqn:E; [| exists []; by left].
  pose proof (proj1 (Forall_lookup _ _) Hwf _ _ E) as [Ho | (_ & vs & t & -> & Ht)].
  - destruct (open_subject_nexts s Ho) as [vs ->]. exists vs. by left.
  - exists vs. right. destruct Ht as [-> | [e ->]]; [by left | right; by exists e].
Qed.

(** ** Settled calls *)

Lemma settle_nexts value vs : settle value (NNext <$> vs) = Pending.
Proof. revert value. induction vs as [| v vs IH]; intros value; [done | apply IH]. Qed.

Lemma settled_stopped s :
  subject_wf s → toPromise s ≠ Pending → isStopped s = true.
Proof.
  intros [Ho | [Hstop _]] Hp; [| done].
  destruct (open_subject_nexts s Ho) as [vs Hvs].
  unfold toPromise in Hp. by rewrite Hvs, settle_nexts in Hp.
Qed.

Lemma stopped_kept_dispatch res c h s :
  subjects c !! h = Some s → isStopped s = true →
  subjects (dispatch res c).1 !! h = Some s.
Proof.
  intros Hs Hstop. unfold dispatch.
  destruct (subscribers c !! msg_id res) as [sub |]; [| done].
  cbn [fst]. rewrite subscriber_variant.
  destruct (variant res); [done | | |]; try destruct (zod_parse _ _);
    cbn [subjects set_subject set_subscribers]; try done;
    rewrite list_lookup_alter; case_decide as Hh; try done; subst h;
    rewrite Hs; cbn;
    unfold Subject_next, Subject_error, Subject_complete; by rewrite Hstop.
Qed.

Lemma stopped_kept_run JSON_parse trace c h s :
  subjects c !! h = Some s → isStopped s = true →
  subjects (run JSON_parse trace c).1 !! h = Some s.
Proof.
  intros Hs Hstop. revert c Hs.
  induction trace as [| a rest IH]; intros c Hs; [done |].
  cbn [run].
  assert (H1 : subjects (step JSON_parse a c).1 !! h = Some s).
  { apply (step_keeps JSON_parse (λ c', subjects c' !! h = Some s)); auto.
    - intros res c0 H0. by apply stopped_kept_dispatch.
    - intros method args schema. cbn. by apply lookup_app_l_Some. }
  destruct (step JSON_parse a c) as [c1 d1]. specialize (IH c1 H1).
  by destruct (run JSON_parse rest c1).
Qed.

(** X3 — Once the promise of a call is settled, fulfilled or rejected, it
    stays as it is whatever is called or printed afterwards: no later
    record, for its id or another, changes what the caller was given. *)
Theorem settled_promise_is_final (JSON_parse : string -> option RpcMessage)
    (before after : list Action) (h : nat) :
  let c := (run JSON_parse before new_Controller).1 in
  promise c h ≠ Pending →
  promise (run JSON_parse after c).1 h = promise c h.
Proof.
  intros c Hp.
  assert (Hwf : subjects_wf c) by (apply subjects_wf_run, Forall_nil_2).
  unfold promise in *. destruct (subjects c !! h) as [s |] eqn:E; [| done].
  pose proof (Forall_lookup_1 _ _ _ _ Hwf E) as Hs.
  by rewrite (stopped_kept_run JSON_parse after c h s E (settled_stopped s Hs Hp)).
Qed.

Lemma settled_promise_is_final_witness :
  let before := [Call "f" [] z_any; Data (lit "{'id':0,'yield':5}\n\n{'id':0}\n\n")] in
  let after := [Call "g" [] z_any; Data (lit "{'id':0,'yield':6}\n{'id':1,'error':'x'}\n")] in
  let c := (run decode before new_Controller).1 in
  promise c 0 = Fulfilled (Some (JNum 5))
  ∧ promise (run decode after c).1 0 = Fulfilled (Some (JNum 5))
  ∧ promise (run decode after c).1 1 = Rejected "x".
Proof.
  intros before after c.
  assert (Hc : promise c 0 = Fulfilled (Some (JNum 5))) by reflexivity.
  split; [exact Hc |]. split; [| reflexivity].
  assert (Hne : promise c 0 ≠ Pending) by (by rewrite Hc).
  exact (eq_trans (settled_promise_is_final decode before after 0 Hne) Hc).
Defined.

(** A property of controllers and a property of deliveries that
    [dispatch] keeps are kept by [read]. *)
Section FramerDeliveries.

Variable JSON_parse : string -> option RpcMessage.
Variable P : Controller → Prop.
Variable Q : Delivery → Prop.
Hypothesis PQ_dispatch :
  ∀ res c, P c → P (dispatch res c).1 ∧ Forall Q (dispatch res c).2.
Hypothesis P_warn : ∀ w c, P c → P (warn w c).
Hypothesis P_buffer : ∀ b c, P c → P (set_buffer b c).

Lemma handle_messages_delivers messages c :
  P c →
  P (handle_messages JSON_parse messages c).1
  ∧ Forall Q (handle_messages JSON_parse messages c).2.
Proof.
  revert c. induction messages as [| message rest IH]; intros c HP; [by split |].
  cbn [handle_messages].
  assert (H1 : P (handle_message JSON_parse message c).1
               ∧ Forall Q (handle_message JSON_parse message c).2).
  { unfold handle_message. destruct (negb _); [by split |].
    destruct (JSON_parse message); [by apply PQ_dispatch | split; cbn; auto]. }
  destruct (handle_message JSON_parse message c) as [c1 d1].
  destruct H1 as [H1 HQ1]. destruct (IH c1 H1) as [H2 HQ2].
  destruct (handle_messages JSON_parse rest c1) as [c2 d2].
  split; [done | by apply Forall_app].
Qed.

Lemma read_delivers data c :
  P c → P (read JSON_parse data c).1 ∧ Forall Q (read JSON_parse data c).2.
Proof.
  intros HP. unfold read.
  destruct (includes LF data); [| split; [by apply P_buffer | done]].
  match goal with
  | |- context [handle_messages _ ?ms ?c0] =>
      destruct (handle_messages_delivers ms c0 (P_buffer _ _ HP)) as [H1 HQ];
      destruct (handle_messages JSON_parse ms c0) as [c' ds]
  end.
  split; [by apply P_buffer | done].
Qed.

Lemma run_delivers trace c :
  (∀ method args schema c, P c → P (send method args schema c).2) →
  P c → P (run JSON_parse trace c).1 ∧ Forall Q (run JSON_parse trace c).2.
Proof.
  intros Hsend. revert c. induction trace as [| a rest IH]; intros c HP; [by split |].
  cbn [run].
  assert (H1 : P (step JSON_parse a c).1 ∧ Forall Q (step JSON_parse a c).2).
  { destruct a; cbn; [split; [by apply Hsend | done] | by apply read_delivers]. }
  destruct (step JSON_parse a c) as [c1 d1]. destruct H1 as [H1 HQ1].
  destruct (IH c1 H1) as [H2 HQ2].
  destruct (run JSON_parse rest c1) as [c2 d2].
  split; [done | by apply Forall_app].
Qed.

End FramerDeliveries.

(** X4 — A call that is no longer pending is never revived: once its
    sink is removed, every later record that carries its id is dropped, in
    all further traffic, and no later call is given its id. *)
Theorem finished_call_stays_finished (JSON_parse : string -> option RpcMessage)
    (before after : list Action) (id : Z) :
  let c := (run JSON_parse before new_Controller).1 in
  0 ≤ id < messageId c → subscribers c !! id = None →
  let (c', ds) := run JSON_parse after c in
  Forall (λ d, msg_id (dl_msg d) = id → dl_sink d = None) ds
  ∧ subscribers c' !! id = None
  ∧ Forall (λ r, req_id r ≠ id) (drop (List.length (stdin c)) (stdin c')).
Proof.
  intros c Hid Hnone.
  assert (Hok : session_ok c) by apply session_ok_run, session_ok_new.
  pose proof (run_stdin JSON_parse after c) as Hstdin.
  destruct (run_delivers JSON_parse
              (λ c0, id < messageId c0 ∧ subscribers c0 !! id = None)
              (λ d, msg_id (dl_msg d) = id → dl_sink d = None)) with after c
    as [[_ Hc'] Hds].
  - intros res c0 [Hlt Hn]. rewrite dispatch_messageId. split.
    + split; [done |].
      destruct (subscribers (dispatch res c0).1 !! id) as [sub |] eqn:E; [| done].
      apply dispatch_subscribers in E. congruence.
    + unfold dispatch. destruct (subscribers c0 !! msg_id res) as [sub |] eqn:E;
        cbn; (constructor; [| constructor]); cbn; intros Heq;
        [rewrite Heq in E; congruence | done].
  - done.
  - done.
  - intros method args schema c0 [Hlt Hn]. cbn. split; [lia |].
    rewrite lookup_insert_ne by lia. done.
  - split; [lia | done].
  - destruct (run JSON_parse after c) as [c' ds]. cbn [fst snd] in *.
    split_and!; [done | done |].
    rewrite Hstdin, drop_app_length.
    apply Forall_lookup_2. intros i r [call [_ ->]]%list_lookup_imap_Some.
    unfold request_of. cbn. lia.
Qed.

Lemma finished_call_stays_finished_witness :
  let before := [Call "f" [] z_any; Data (lit "{'id':0}\n")] in
  let after := [Call "g" [] z_any; Data (lit "{'id':0,'yield':6}\n{'id':1,'yield':2}\n")] in
  let c := (run decode before new_Controller).1 in
  let (c', ds) := run decode after c in
  dl_sink <$> ds = [None; Some (mkSubscriber 1 z_any 1)]
  ∧ Forall (λ d, msg_id (dl_msg d) = 0 → dl_sink d = None) ds.
Proof.
  intros before after c.
  pose proof (finished_call_stays_finished decode before after 0) as H.
  cbv zeta in H. fold c in H.
  destruct (run decode after c) as [c' ds] eqn:E.
  split; [by injection E as <- <- |].
  apply H; [by split | reflexivity].
Defined.

(** ** What the caller of a method is notified of *)

Lemma hook_records id o :
  hook id o = map (Yield id) (yields o) ++ last_record id o.
Proof. destruct o as [| ? [|] | |]; cbn; by rewrite ?app_nil_r. Qed.

Lemma dispatch_all_dropped rs c id :
  subscribers c !! id = None → Forall (λ r, msg_id r = id) rs →
  (dispatch_all rs c).1 = c.
Proof.
  intros Hnone Hrs. induction Hrs as [| r rs Hr _ IH]; [done |].
  rewrite dispatch_all_cons, dispatch_dropped; [done | by rewrite Hr].
Qed.

Lemma stream_lookup c h s : subjects c !! h = Some s → stream c h = emitted s.
Proof. intros H. unfold stream. by rewrite H. Qed.

Lemma dispatch_invalid res c sub y :
  subscribers c !! msg_id res = Some sub →
  variant res = VYield y → zod_parse (sub_schema sub) y = None →
  (dispatch res c).1 = c.
Proof.
  intros Hsub Hvar Hv. rewrite (dispatch_registered _ _ _ Hsub). simpl.
  by rewrite subscriber_variant, Hvar, Hv.
Qed.

Lemma omap_cons_Some {A B} (f : A → option B) v w (l : list A) :
  f v = Some w → omap f (v :: l) = w :: omap f l.
Proof. intros H. cbn. by rewrite H. Qed.

Lemma omap_cons_None {A B} (f : A → option B) v (l : list A) :
  f v = None → omap f (v :: l) = omap f l.
Proof. intros H. cbn. by rewrite H. Qed.

Lemma dispatch_call_records items t n c id sub s :
  sub_messageId sub = id →
  call_pending c id sub s → open_subject s → msg_id t = id →
  (variant t = VCompletion ∧ n = NComplete)
  ∨ (∃ e, variant t = VError e ∧ n = NError (js_String e)) →
  let c' := (dispatch_all (map (Yield id) items ++ [t]) c).1 in
  stream c' (sub_subject sub) =
    emitted s
    ++ (NNext <$> omap (zod_parse (sub_schema sub)) (before_falsy items))
    ++ [if forallb truthy items then n else NComplete]
  ∧ subscribers c' !! id = None.
Proof.
  intros Hown Hp Ho Hid Ht. revert c s Hp Ho.
  induction items as [| v items IH]; intros c s [Hsub Hs] [Hopen Hn] c'.
  - unfold c'. cbn [map app before_falsy forallb].
    rewrite dispatch_all_cons. cbn [dispatch_all fst].
    destruct Ht as [[Hv ->] | (e & Hv & ->)].
    + rewrite (dispatch_completion t c sub) by (by rewrite ?Hid).
      rewrite Hown. split; [| apply lookup_delete_eq].
      rewrite stream_set_subject. cbn [subjects set_subscribers]. rewrite Hs. cbn.
      unfold Subject_complete. by rewrite Hopen.
    + rewrite (dispatch_error t c sub e) by (by rewrite ?Hid).
      rewrite Hown. split; [| apply lookup_delete_eq].
      rewrite stream_set_subject. cbn [subjects set_subscribers]. rewrite Hs. cbn.
      unfold Subject_error. by rewrite Hopen.
  - unfold c'. cbn [map app]. rewrite dispatch_all_cons.
    cbn [before_falsy forallb]. destruct (truthy v) eqn:Hv.
    + cbn [andb].
      destruct (zod_parse (sub_schema sub) v) as [w |] eqn:Hw.
      * rewrite (dispatch_valid (Yield id v) c sub v w);
          [| done | by rewrite variant_Yield, Hv | done].
        destruct (IH (set_subject (sub_subject sub) (Subject_next w) c)
                    (Subject_next w s)) as [IH1 IH2].
        { split; [done |]. cbn. by rewrite list_lookup_alter_eq, Hs. }
        { unfold Subject_next. rewrite Hopen. split; [done |]. cbn.
          apply Forall_app. split; [done |]. constructor; eauto. }
        split; [| done]. rewrite IH1, (omap_cons_Some _ _ w) by done.
        unfold Subject_next. rewrite Hopen. cbn.
        by rewrite <- app_assoc.
      * rewrite (dispatch_invalid (Yield id v) c sub v);
          [| done | by rewrite variant_Yield, Hv | done].
        rewrite omap_cons_None by done.
        by apply (IH c s).
    + cbn [andb].
      rewrite (dispatch_completion (Yield id v) c sub);
        [| done | by rewrite variant_Yield, Hv].
      rewrite Hown.
      rewrite (dispatch_all_dropped _ _ id).
      * split; [| apply lookup_delete_eq].
        rewrite stream_set_subject. cbn [subjects set_subscribers]. rewrite Hs. cbn.
        unfold Subject_complete. by rewrite Hopen.
      * apply lookup_delete_eq.
      * apply Forall_app. split; [| by constructor].
        clear. induction items; by constructor.
Qed.

Lemma dispatch_call_yields items c id sub s :
  sub_messageId sub = id →
  call_pending c id sub s → open_subject s →
  let c' := (dispatch_all (map (Yield id) items) c).1 in
  stream c' (sub_subject sub) =
    emitted s
    ++ (NNext <$> omap (zod_parse (sub_schema sub)) (before_falsy items))
    ++ (if forallb truthy items then [] else [NComplete])
  ∧ (forallb truthy items = false → subscribers c' !! id = None).
Proof.
  intros Hown Hp Ho. revert c s Hp Ho.
  induction items as [| v items IH]; intros c s [Hsub Hs] [Hopen Hn] c'.
  - unfold c'. cbn. split; [| done].
    by rewrite (stream_lookup _ _ s), app_nil_r.
  - unfold c'. cbn [map]. rewrite dispatch_all_cons.
    cbn [before_falsy forallb]. destruct (truthy v) eqn:Hv.
    + cbn [andb].
      destruct (zod_parse (sub_schema sub) v) as [w |] eqn:Hw.
      * rewrite (dispatch_valid (Yield id v) c sub v w);
          [| done | by rewrite variant_Yield, Hv | done].
        destruct (IH (set_subject (sub_subject sub) (Subject_next w) c)
                    (Subject_next w s)) as [IH1 IH2].
        { split; [done |]. cbn. by rewrite list_lookup_alter_eq, Hs. }
        { unfold Subject_next. rewrite Hopen. split; [done |]. cbn.
          apply Forall_app. split; [done |]. constructor; eauto. }
        split; [| done]. rewrite IH1, (omap_cons_Some _ _ w) by done.
        unfold Subject_next. rewrite Hopen. cbn.
        by rewrite <- app_assoc.
      * rewrite (dispatch_invalid (Yield id v) c sub v);
          [| done | by rewrite variant_Yield, Hv | done].
        rewrite omap_cons_None by done.
        by apply (IH c s).
    + cbn [andb].
      rewrite (dispatch_completion (Yield id v) c sub);
        [| done | by rewrite variant_Yield, Hv].
      rewrite Hown.
      rewrite (dispatch_all_dropped _ _ id).
      * split; [| intros _; apply lookup_delete_eq].
        rewrite stream_set_subject. cbn [subjects set_subscribers]. rewrite Hs. cbn.
        unfold Subject_complete. by rewrite Hopen.
      * apply lookup_delete_eq.
      * clear. induction items; by constructor.
Qed.

(** What the records printed for a call do to the subject of the call. *)
Lemma dispatch_hook o c id sub s :
  sub_messageId sub = id →
  call_pending c id sub s → open_subject s →
  let c' := (dispatch_all (hook id o) c).1 in
  stream c' (sub_subject sub) = emitted s ++ notified (sub_schema sub) o
  ∧ (exits o = false → subscribers c' !! id = None).
Proof.
  intros Hown Hp Ho. cbv zeta. unfold notified.
  destruct (decide (exits o = true)) as [Hexit | Hexit].
  - destruct o as [| | | items]; try discriminate. cbn [hook yields ending].
    destruct (dispatch_call_yields items c id sub s Hown Hp Ho) as [H1 _].
    split; [| done]. rewrite H1. by destruct (forallb truthy items).
  - assert (∃ t n, last_record id o = [t] ∧ ending o = [n] ∧ msg_id t = id
                   ∧ ((variant t = VCompletion ∧ n = NComplete)
                      ∨ (∃ e, variant t = VError e ∧ n = NError (js_String e))))
      as (t & n & Ht & Hn & Hid & Hvar).
    { destruct o as [| ? [|] | |]; cbn; try done; eexists _, _;
        (split; [reflexivity |]); (split; [reflexivity |]); (split; [reflexivity |]);
        first [ left; by split
              | right; eexists; split; [reflexivity | by rewrite js_String_trace] ]. }
    rewrite hook_records, Ht, Hn.
    destruct (dispatch_call_records (yields o) t n c id sub s Hown Hp Ho Hid Hvar)
      as [H1 H2].
    split; [| done]. rewrite H1. by destruct (forallb truthy (yields o)).
Qed.

(** ** The framer, line by line *)

Lemma str_app_cons a s1 s2 : String a s1 +:+ s2 = String a (s1 +:+ s2).
Proof. reflexivity. Qed.

Lemma str_app_nil_r s : s +:+ EmptyString = s.
Proof. induction s as [| a s IH]; [done |]. by rewrite str_app_cons, IH. Qed.

Lemma str_app_assoc s1 s2 s3 : (s1 +:+ s2) +:+ s3 = s1 +:+ (s2 +:+ s3).
Proof. induction s1 as [| a s1 IH]; [done |]. by rewrite !str_app_cons, IH. Qed.

Lemma Buffer_concat_app l1 l2 :
  Buffer_concat (l1 ++ l2) = Buffer_concat l1 +:+ Buffer_concat l2.
Proof.
  induction l1 as [| chunk l1 IH]; [done |].
  cbn [app Buffer_concat]. by rewrite IH, str_app_assoc.
Qed.

Lemma includes_app b s1 s2 :
  includes b (s1 +:+ s2) = includes b s1 || includes b s2.
Proof.
  induction s1 as [| a s1 IH]; [done |].
  rewrite str_app_cons. cbn [includes]. by destruct (Ascii.eqb a b).
Qed.

Lemma dispatch_warn res w c :
  dispatch res (warn w c) = (warn w (dispatch res c).1, (dispatch res c).2).
Proof.
  unfold dispatch. cbn [subscribers warn].
  destruct (subscribers c !! msg_id res) as [sub |]; [| done].
  cbn [fst snd]. f_equal. rewrite !subscriber_variant.
  destruct (variant res); [done | | done | done].
  by destruct (zod_parse _ _).
Qed.

Lemma handle_messages_set_buffer JSON_parse ms b c :
  handle_messages JSON_parse ms (set_buffer b c) =
  (set_buffer b (handle_messages JSON_parse ms c).1,
   (handle_messages JSON_parse ms c).2).
Proof.
  revert c. induction ms as [| m ms IH]; intros c; [done |].
  cbn [handle_messages]. unfold handle_message.
  destruct (negb _).
  - rewrite IH. by destruct (handle_messages JSON_parse ms c).
  - destruct (JSON_parse m) as [res |].
    + rewrite dispatch_set_buffer. destruct (dispatch res c) as [c1 d1].
      cbn [fst snd]. rewrite IH. by destruct (handle_messages JSON_parse ms c1).
    + change (warn ?w (set_buffer b c)) with (set_buffer b (warn w c)).
      rewrite IH. by destruct (handle_messages JSON_parse ms (warn _ c)).
Qed.

(** What a chunk with a line feed does depends on the text gathered so
    far only, not on how it arrived. *)
Lemma read_complete JSON_parse data c :
  includes LF data = true →
  read JSON_parse data c =
  let ms := split LF (trim (Buffer_concat (buffer c ++ [data]))) in
  (set_buffer [] (handle_messages JSON_parse ms c).1,
   (handle_messages JSON_parse ms c).2).
Proof.
  intros Hnl. unfold read. rewrite Hnl. cbn [buffer set_buffer].
  rewrite handle_messages_set_buffer.
  by destruct (handle_messages JSON_parse _ c).
Qed.

(** X6 — However the pipe cuts it, text that arrives in chunks of which
    only the last contains a line feed is processed exactly as if it had
    arrived in one chunk: the same records reach the same sinks and the
    controller ends in the same state. *)
Theorem chunks_are_reassembled (JSON_parse : string -> option RpcMessage)
    (chunks : list string) (last : string) (c : Controller) :
  Forall (λ chunk, includes LF chunk = false) chunks →
  includes LF last = true →
  read_all JSON_parse (chunks ++ [last]) c
  = read JSON_parse (Buffer_concat (chunks ++ [last])) c.
Proof.
  intros Hchunks Hlast. revert c.
  induction Hchunks as [| chunk chunks Hchunk _ IH]; intros c.
  - cbn [app read_all Buffer_concat]. rewrite str_app_nil_r.
    destruct (read JSON_parse last c). by rewrite app_nil_r.
  - cbn [app read_all]. rewrite (read_buffered _ _ _ Hchunk), IH.
    assert (Hnl : includes LF (Buffer_concat (chunks ++ [last])) = true).
    { rewrite Buffer_concat_app, includes_app. cbn [Buffer_concat].
      rewrite str_app_nil_r, Hlast. apply orb_true_r. }
    rewrite !read_complete;
      [| cbn [Buffer_concat]; by rewrite includes_app, Hnl, orb_true_r | done].
    cbn [buffer set_buffer Buffer_concat app].
    rewrite handle_messages_set_buffer. cbn [fst snd].
    rewrite !Buffer_concat_app. cbn [Buffer_concat].
    by rewrite !str_app_nil_r, !str_app_assoc.
Qed.

Lemma chunks_are_reassembled_witness :
  let c := (send "f" [] z_any new_Controller).2 in
  let (c', ds) := read_all decode [lit "{'id':0,"; lit "'yie"; lit "ld':5}\n\n{'id':0}\n"] c in
  dl_msg <$> ds = [Yield 0 (JNum 5); Completion 0]
  ∧ promise c' 0 = Fulfilled (Some (JNum 5)).
Proof.
  intros c.
  assert (Hchunks : Forall (λ chunk, includes LF chunk = false)
                      [lit "{'id':0,"; lit "'yie"]) by (repeat constructor).
  pose proof (chunks_are_reassembled decode [lit "{'id':0,"; lit "'yie"]
                (lit "ld':5}\n\n{'id':0}\n") c Hchunks eq_refl) as H.
  cbn [app] in H. rewrite H.
  split; reflexivity.
Defined.

Lemma dispatch_all_add_warnings rs ws c :
  dispatch_all rs (add_warnings ws c) =
  (add_warnings ws (dispatch_all rs c).1, (dispatch_all rs c).2).
Proof.
  revert c. induction rs as [| res rs IH]; intros c; [done |].
  cbn [dispatch_all].
  assert (Hd : dispatch res (add_warnings ws c) =
               (add_warnings ws (dispatch res c).1, (dispatch res c).2)).
  { unfold dispatch. cbn [subscribers add_warnings].
    destruct (subscribers c !! msg_id res) as [sub |]; [| done].
    cbn [fst snd]. f_equal. rewrite !subscriber_variant.
    destruct (variant res); [done | | done | done].
    by destruct (zod_parse _ _). }
  rewrite Hd. destruct (dispatch res c) as [c1 d1]. cbn [fst snd].
  rewrite IH. by destruct (dispatch_all rs c1).
Qed.

Lemma add_warnings_nil c : add_warnings [] c = c.
Proof. destruct c. unfold add_warnings. cbn. by rewrite app_nil_r. Qed.

Lemma handle_messages_decodes JSON_parse ms c :
  handle_messages JSON_parse ms c =
  (add_warnings (omap (complaint JSON_parse) ms)
     (dispatch_all (omap (accept JSON_parse) ms) c).1,
   (dispatch_all (omap (accept JSON_parse) ms) c).2).
Proof.
  revert c. induction ms as [| m ms IH]; intros c.
  - cbn. by rewrite add_warnings_nil.
  - cbn [handle_messages]. unfold handle_message.
    destruct (startsWith m (lit "{'")) eqn:Hstart; cbn [negb].
    + destruct (JSON_parse m) as [res |] eqn:Hparse.
      * rewrite (omap_cons_Some (accept JSON_parse) m res)
          by (unfold accept; by rewrite Hstart).
        rewrite (omap_cons_None (complaint JSON_parse) m)
          by (unfold complaint; by rewrite Hstart, Hparse).
        cbn [dispatch_all]. destruct (dispatch res c) as [c1 d1].
        rewrite IH. by destruct (dispatch_all _ c1).
      * rewrite (omap_cons_None (accept JSON_parse) m)
          by (unfold accept; by rewrite Hstart).
        rewrite (omap_cons_Some (complaint JSON_parse) m ("Could not parse: " +:+ m))
          by (unfold complaint; by rewrite Hstart, Hparse).
        rewrite IH.
        change (warn ?w c) with (add_warnings [w] c).
        rewrite dispatch_all_add_warnings. cbn [fst snd app].
        destruct (dispatch_all _ c) as [c1 d1]. cbn [fst snd].
        f_equal. unfold add_warnings. cbn. by rewrite <- app_assoc.
    + rewrite (omap_cons_None (accept JSON_parse) m)
        by (unfold accept; by rewrite Hstart).
      rewrite (omap_cons_None (complaint JSON_parse) m)
        by (unfold complaint; by rewrite Hstart).
      rewrite IH. by destruct (dispatch_all _ c).
Qed.

(** X7 — When a chunk with a line feed arrives, the lines of the trimmed
    text gathered so far that start with an object opener and decode are
    dispatched, in order; every other line is dropped and changes neither
    the pending calls nor what the lines after it do: a line that starts
    like an object but does not decode leaves a warning, any other line
    leaves nothing. *)
Theorem read_dispatches_decoded_lines (JSON_parse : string -> option RpcMessage)
    (data : string) (c : Controller) :
  includes LF data = true →
  let ms := split LF (trim (Buffer_concat (buffer c ++ [data]))) in
  let (c', ds) := dispatch_all (omap (accept JSON_parse) ms) c in
  read JSON_parse data c =
  (set_buffer [] (add_warnings (omap (complaint JSON_parse) ms) c'), ds).
Proof.
  intros Hnl ms. rewrite (read_complete _ _ _ Hnl). cbv zeta. fold ms.
  rewrite handle_messages_decodes.
  by destruct (dispatch_all (omap (accept JSON_parse) ms) c).
Qed.

Lemma read_dispatches_decoded_lines_witness :
  let c := (send "f" [] z_any new_Controller).2 in
  let data := lit "not-json-at-all\n{'id':0,'yie\n{'id':0,'yield':5}\n" in
  let (c', ds) := read decode data c in
  dl_msg <$> ds = [Yield 0 (JNum 5)]
  ∧ warnings c' = ["Could not parse: " +:+ lit "{'id':0,'yie"]
  ∧ stream c' 0 = [NNext (JNum 5)].
Proof.
  intros c data.
  pose proof (read_dispatches_decoded_lines decode data c eq_refl) as H.
  cbv zeta in H.
  destruct (dispatch_all _ c) as [c1 d1] eqn:E in H. rewrite H.
  injection E as <- <-. split_and!; reflexivity.
Defined.

Lemma trimStart_all_space s : all_space s = true → trimStart s = EmptyString.
Proof.
  unfold all_space. induction s as [| a s IH]; [done |].
  cbn. intros [Ha Hs]%andb_true_iff. rewrite Ha. by apply IH.
Qed.

(** X8 — Text that is only white space, such as the empty line the
    subprocess prints after each record, is dropped as a whole: nothing is
    dispatched, nothing is warned about, and the buffer is emptied. *)
Theorem blank_text_is_dropped (JSON_parse : string -> option RpcMessage)
    (data : string) (c : Controller) :
  includes LF data = true →
  all_space (Buffer_concat (buffer c ++ [data])) = true →
  read JSON_parse data c = (set_buffer [] c, []).
Proof.
  intros Hnl Hspace. rewrite (read_complete _ _ _ Hnl). cbv zeta.
  unfold trim. by rewrite (trimStart_all_space _ Hspace).
Qed.

Lemma blank_text_is_dropped_witness :
  let c := (send "f" [] z_any new_Controller).2 in
  read_all decode [" "; lit "\n\n"] c = (c, []).
Proof.
  intros c. cbn [read_all].
  rewrite (read_buffered decode " " c eq_refl).
  rewrite (blank_text_is_dropped decode (lit "\n\n")
             (set_buffer (buffer c ++ [" "]) c) eq_refl eq_refl).
  reflexivity.
Defined.

(** ** Lines *)

Lemma split_cons sep s : ∃ first others, split sep s = first :: others.
Proof.
  induction s as [| a s [first [others IH]]]; [by eexists _, _ |].
  cbn. destruct (Ascii.eqb a sep); [by eexists _, _ |].
  rewrite IH. by eexists _, _.
Qed.

Lemma join_cons sep p q rest :
  join sep (p :: q :: rest) = p +:+ sep +:+ join sep (q :: rest).
Proof. reflexivity. Qed.

(** X9 — Splitting a text at its line feeds loses nothing and invents
    nothing: there is always at least one line, no line contains a line
    feed, and the lines joined by line feeds are the text again. *)
Theorem split_join (s : string) :
  split LF s ≠ []
  ∧ Forall (λ line, includes LF line = false) (split LF s)
  ∧ join (String LF EmptyString) (split LF s) = s.
Proof.
  induction s as [| a s IH]; [by repeat constructor |].
  destruct (split_cons LF s) as (first & others & Hs).
  rewrite Hs in IH. destruct IH as (_ & Hlines & Hjoin).
  cbn [split]. rewrite Hs.
  destruct (Ascii.eqb a LF) eqn:Ha.
  - apply Ascii.eqb_eq in Ha as ->.
    split_and!; [done | by constructor |].
    rewrite join_cons, Hjoin. reflexivity.
  - apply Forall_cons in Hlines as [Hfirst Hothers].
    split_and!; [done | |].
    + constructor; [| done]. cbn [includes]. by rewrite Ha.
    + destruct others as [| q rest]; cbn [join] in *; [by rewrite Hjoin |].
      by rewrite str_app_cons, Hjoin.
Qed.

(** * Further properties of the bridge *)

Lemma bridge_ok_new : bridge_ok new_PyBridge.
Proof.
  split; [cbn; by rewrite map_to_list_empty |]. intros name _. apply lookup_empty.
Qed.

Lemma bridge_ok_step op b : bridge_ok b → bridge_ok (bridge_step op b).
Proof.
  intros [Hperm Hinh]. destruct op as [moduleName shape | p name args | h res]; cbn.
  - unfold controller. destruct (controllers b !! moduleName) eqn:E; [by split |].
    destruct (inherited moduleName) eqn:Ei; [by split |]. cbn. split.
    + cbn [controllers processes].
      rewrite map_to_list_insert, fmap_cons by done. cbn [snd px_controller].
      rewrite length_app, Hperm. cbn [List.length].
      rewrite Nat.add_1_r, seq_S. cbn. apply Permutation_cons_append.
    + intros name Hname. cbn [controllers].
      rewrite lookup_insert_ne; [by apply Hinh |].
      intros ->. congruence.
  - unfold invoke. destruct (get p name); [by split |].
    unfold method. destruct (px_shape p !! _); [| by split].
    destruct (processes b !! px_controller p); [| by split].
    destruct (send _ _ _ _). cbn [snd].
    split; cbn [controllers processes]; [by rewrite length_insert | done].
  - unfold deliver. destruct (processes b !! h); [| by split].
    split; cbn [controllers processes]; [by rewrite length_insert | done].
Qed.

Lemma bridge_ok_run ops b : bridge_ok b → bridge_ok (bridge_run ops b).
Proof.
  revert b. induction ops as [| op ops IH]; intros b Hb; [done |].
  cbn. by apply IH, bridge_ok_step.
Qed.

Lemma cached_handle b name p :
  controllers b !! name = Some p →
  px_controller p ∈ (λ kv : string * Proxy, px_controller kv.2)
                      <$> map_to_list (controllers b).
Proof.
  intros H. apply list_elem_of_fmap. exists (name, p).
  split; [done | by apply elem_of_map_to_list].
Qed.

Lemma handles_injective b name1 name2 p1 p2 :
  bridge_ok b →
  controllers b !! name1 = Some p1 → controllers b !! name2 = Some p2 →
  px_controller p1 = px_controller p2 → name1 = name2.
Proof.
  intros [Hperm _] H1 H2 Heq.
  assert (Hnd : NoDup ((λ kv : string * Proxy, px_controller kv.2)
                         <$> map_to_list (controllers b)))
    by (rewrite Hperm; apply NoDup_seq).
  apply elem_of_map_to_list, list_elem_of_lookup in H1 as [i Hi].
  apply elem_of_map_to_list, list_elem_of_lookup in H2 as [j Hj].
  assert (i = j) as ->.
  { eapply (NoDup_lookup _ i j (px_controller p1) Hnd);
      rewrite list_lookup_fmap; [by rewrite Hi | by rewrite Hj, Heq]. }
  congruence.
Qed.

(** X10 — However a bridge is used, it runs exactly one subprocess for
    each module name it has been asked for: every cached facade has a live
    handle of its own, no two names share a subprocess, and no subprocess
    is spawned that no name owns. *)
Theorem one_process_per_module (ops : list BridgeOp) :
  let b := bridge_run ops new_PyBridge in
  List.length (processes b) = size (controllers b)
  ∧ (∀ name p, controllers b !! name = Some p →
       is_Some (processes b !! px_controller p))
  ∧ (∀ name1 name2 p1 p2,
       controllers b !! name1 = Some p1 → controllers b !! name2 = Some p2 →
       px_controller p1 = px_controller p2 → name1 = name2).
Proof.
  intros b.
  pose proof (bridge_ok_run ops new_PyBridge bridge_ok_new) as Hok.
  fold b in Hok. destruct Hok as [Hperm Hinh]. split_and!.
  - apply Permutation_length in Hperm.
    by rewrite length_fmap, length_seq, length_map_to_list in Hperm.
  - intros name p Hp. apply lookup_lt_is_Some.
    pose proof (cached_handle b name p Hp) as Hin.
    rewrite Hperm in Hin. apply elem_of_seq in Hin. lia.
  - intros name1 name2 p1 p2. by apply handles_injective.
Qed.

Lemma close_handles b :
  close b = (λ kv : string * Proxy, px_controller kv.2) <$> map_to_list (controllers b).
Proof. unfold close. induction (map_to_list (controllers b)); [done | cbn; by f_equal]. Qed.

(** X11 — [close] kills every subprocess the bridge has spawned, each
    exactly once, whatever was called and printed before. *)
Theorem close_kills_every_process (ops : list BridgeOp) :
  let b := bridge_run ops new_PyBridge in
  close b ≡ₚ seq 0 (List.length (processes b)).
Proof.
  intros b. rewrite close_handles.
  by destruct (bridge_ok_run ops new_PyBridge bridge_ok_new).
Qed.

(** X12 — A module that bears the name of a member of [Object.prototype],
    such as [constructor] or [toString], is never bridged: [controller]
    returns that member instead of a facade and spawns nothing, however
    often it is asked. *)
Theorem inherited_name_is_never_bridged (ops : list BridgeOp) (name : string)
    (shape : gmap string ZodFunction) :
  inherited name = true →
  let b := bridge_run ops new_PyBridge in
  controller name shape b = (FInherited name, b).
Proof.
  intros Hinh b.
  destruct (bridge_ok_run ops new_PyBridge bridge_ok_new) as [_ Hnone].
  unfold controller. fold b in Hnone. by rewrite (Hnone name Hinh), Hinh.
Qed.

Lemma inherited_name_is_never_bridged_witness :
  let b := bridge_run [OController "toString" greeting_contract] new_PyBridge in
  b = new_PyBridge
  ∧ controller "toString" greeting_contract b = (FInherited "toString", b).
Proof.
  intros b. split; [reflexivity |].
  exact (inherited_name_is_never_bridged
           [OController "toString" greeting_contract] "toString"
           greeting_contract eq_refl).
Defined.

(** X13 — The sessions of two modules do not touch each other: invoking
    a method of one, or processing a record of one, leaves the controller
    of the other exactly as it was. *)
Theorem modules_are_independent (ops : list BridgeOp) (name1 name2 : string)
    (p1 p2 : Proxy) :
  let b := bridge_run ops new_PyBridge in
  name1 ≠ name2 →
  controllers b !! name1 = Some p1 → controllers b !! name2 = Some p2 →
  (∀ name args,
     processes (invoke p1 name args b).2 !! px_controller p2
     = processes b !! px_controller p2)
  ∧ (∀ res,
     processes (deliver (px_controller p1) res b) !! px_controller p2
     = processes b !! px_controller p2).
Proof.
  intros b Hne H1 H2.
  assert (Hh : px_controller p1 ≠ px_controller p2).
  { intros Heq. apply Hne.
    apply (handles_injective b name1 name2 p1 p2); [| done | done | done].
    apply bridge_ok_run, bridge_ok_new. }
  split.
  - intros name args. unfold invoke. destruct (get p1 name); [done |].
    unfold method. destruct (px_shape p1 !! _); [| done].
    destruct (processes b !! px_controller p1); [| done].
    destruct (send _ _ _ _). cbn. by apply list_lookup_insert_ne.
  - intros res. unfold deliver. destruct (processes b !! px_controller p1); [| done].
    cbn. by apply list_lookup_insert_ne.
Qed.

Lemma modules_are_independent_witness :
  let ops := [OController "nlp" greeting_contract; OController "db" first_schema] in
  let b := bridge_run ops new_PyBridge in
  let p1 := mkProxy 0 greeting_contract in
  let p2 := mkProxy 1 first_schema in
  controllers b !! "nlp" = Some p1
  ∧ controllers b !! "db" = Some p2
  ∧ processes (invoke p1 "greet" [] b).2 !! 1%nat = Some new_Controller
  ∧ processes (deliver 0 (Completion 0) b) !! 1%nat = Some new_Controller.
Proof.
  intros ops b p1 p2.
  assert (H1 : controllers b !! "nlp" = Some p1) by (by vm_compute).
  assert (H2 : controllers b !! "db" = Some p2) by (by vm_compute).
  destruct (modules_are_independent ops "nlp" "db" p1 p2) as [Hi Hd];
    [done | exact H1 | exact H2 |].
  split_and!; [exact H1 | exact H2 | |].
  - exact (eq_trans (Hi "greet" []) eq_refl).
  - exact (eq_trans (Hd (Completion 0)) eq_refl).
Defined.

(** * Calls in flight together *)

Lemma Forall_foreign_requests id calls :
  Forall (foreign id) (request_event <$> calls).
Proof. induction calls; by constructor. Qed.

Lemma play_requests calls c :
  good c →
  batch_pending (play (request_event <$> calls) c).1 (messageId c) calls.
Proof.
  revert c. induction calls as [| rc rest IH]; intros c Hc k rc' Hk; [done |].
  cbn [fmap list_fmap request_event play].
  pose proof (good_send (rc_method rc) (rc_args rc) (rc_schema rc) c Hc) as Hs.
  destruct k as [| k]; cbn in Hk.
  - injection Hk as <-. rewrite Z.add_0_r.
    apply frame_play; [done | apply Forall_foreign_requests |].
    destruct Hc as [_ [Hlen _]]. rewrite Hlen at 3. rewrite Nat2Z.id.
    apply call_pending_send.
  - specialize (IH _ Hs k rc' Hk). cbn [send snd messageId] in IH.
    by replace (messageId c + Z.of_nat (S k)) with (messageId c + 1 + Z.of_nat k)
      by lia.
Qed.

Lemma good_dispatch_all rs c : good c → good (dispatch_all rs c).1.
Proof.
  revert c. induction rs as [| res rs IH]; intros c Hc; [done |].
  rewrite dispatch_all_cons. by apply IH, good_dispatch.
Qed.

Lemma subjects_wf_dispatch_all rs c :
  subjects_wf c → subjects_wf (dispatch_all rs c).1.
Proof.
  revert c. induction rs as [| res rs IH]; intros c Hc; [done |].
  rewrite dispatch_all_cons. by apply IH, subjects_wf_dispatch.
Qed.

Lemma frame_dispatch_all rs c id sub s :
  good c → Forall (λ r, msg_id r ≠ id) rs → call_pending c id sub s →
  call_pending (dispatch_all rs c).1 id sub s.
Proof.
  intros Hc Hrs. revert c Hc. induction Hrs as [| r rs Hr _ IH]; intros c Hc Hp; [done |].
  rewrite dispatch_all_cons.
  apply IH; [by apply good_dispatch | by apply frame_dispatch].
Qed.

Lemma stopped_kept_dispatch_all rs c h s :
  subjects c !! h = Some s → isStopped s = true →
  subjects (dispatch_all rs c).1 !! h = Some s.
Proof.
  intros Hs Hstop. revert c Hs. induction rs as [| res rs IH]; intros c Hs; [done |].
  rewrite dispatch_all_cons. by apply IH, stopped_kept_dispatch.
Qed.

Lemma hook_ids id o : Forall (λ r, msg_id r = id) (hook id o).
Proof.
  rewrite hook_records. apply Forall_app. split.
  - induction (yields o); by constructor.
  - destruct o as [| ? [|] | |]; by repeat constructor.
Qed.

Lemma notified_ends schema o :
  exits o = false →
  ∃ vs t, notified schema o = (NNext <$> vs) ++ [t] ∧ is_terminal t.
Proof.
  intros Hexit. unfold notified.
  destruct (forallb truthy (yields o)).
  - destruct o as [| ? [|] | |]; try discriminate; cbn [ending];
      eexists _, _; (split; [reflexivity |]); first [by left | right; eauto].
  - eexists _, _. split; [reflexivity | by left].
Qed.

Lemma ended_stopped s vs t :
  subject_wf s → emitted s = (NNext <$> vs) ++ [t] → is_terminal t →
  isStopped s = true.
Proof.
  intros [[_ Hn] | [Hstop _]] He Ht; [| done].
  rewrite He in Hn. apply Forall_app in Hn as [_ Hn].
  apply Forall_cons in Hn as [[v ->] _].
  destruct Ht as [| [e ?]]; done.
Qed.

Lemma answer_first calls rc :
  answer 0 calls rc = notified (rc_schema rc) (rc_outcome rc).
Proof. unfold answer, reached. by rewrite take_0. Qed.

Lemma answer_next k rc0 rest rc :
  answer (S k) (rc0 :: rest) rc =
  if exits (rc_outcome rc0) then [] else answer k rest rc.
Proof.
  unfold answer, reached. cbn [take forallb].
  by destruct (exits (rc_outcome rc0)).
Qed.

Lemma dispatch_hook_loop calls first c :
  good c → subjects_wf c → batch_pending c first calls →
  ∀ k rc, calls !! k = Some rc →
    stream (dispatch_all (hook_loop first calls) c).1 (Z.to_nat (first + Z.of_nat k))
    = answer k calls rc.
Proof.
  revert first c. induction calls as [| rc0 rest IH];
    intros first c Hc Hwf Hp k rc Hk; [done |].
  cbn [hook_loop]. rewrite dispatch_all_app.
  set (c1 := (dispatch_all (hook first (rc_outcome rc0)) c).1).
  assert (Hc1 : good c1) by (by apply good_dispatch_all).
  assert (Hwf1 : subjects_wf c1) by (by apply subjects_wf_dispatch_all).
  assert (Hothers : ∀ k' rc', rest !! k' = Some rc' →
            call_pending c1 (first + 1 + Z.of_nat k')
              (mkSubscriber (first + 1 + Z.of_nat k') (rc_schema rc')
                 (Z.to_nat (first + 1 + Z.of_nat k')))
              new_Subject).
  { intros k' rc' Hk'.
    replace (first + 1 + Z.of_nat k') with (first + Z.of_nat (S k')) by lia.
    apply frame_dispatch_all; [done | | by apply (Hp (S k'))].
    eapply Forall_impl; [apply hook_ids |]. cbn. intros r ->. lia. }
  destruct k as [| k]; cbn in Hk.
  - injection Hk as <-. rewrite Z.add_0_r, answer_first.
    pose proof (Hp 0%nat rc0 eq_refl) as Hp0. rewrite Z.add_0_r in Hp0.
    assert (Hstream : stream c1 (Z.to_nat first)
                      = notified (rc_schema rc0) (rc_outcome rc0)).
    { destruct (dispatch_hook (rc_outcome rc0) c first
                  (mkSubscriber first (rc_schema rc0) (Z.to_nat first))
                  new_Subject eq_refl Hp0) as [H1 _];
        [split; [done | constructor] | exact H1]. }
    destruct (exits (rc_outcome rc0)) eqn:Hexit; [done |].
    destruct (notified_ends (rc_schema rc0) (rc_outcome rc0) Hexit)
      as (vs & t & Hn & Ht).
    unfold stream in Hstream.
    destruct (subjects c1 !! Z.to_nat first) as [s |] eqn:Es;
      [| rewrite Hn in Hstream; by destruct vs].
    assert (Hstop : isStopped s = true).
    { apply (ended_stopped s vs t); [| by rewrite Hstream | done].
      by apply (Forall_lookup_1 _ _ _ _ Hwf1 Es). }
    by rewrite (stream_lookup _ _ s)
      by (by apply stopped_kept_dispatch_all).
  - rewrite answer_next.
    replace (first + Z.of_nat (S k)) with (first + 1 + Z.of_nat k) by lia.
    destruct (exits (rc_outcome rc0)) eqn:Hexit.
    + destruct (Hothers k rc Hk) as [_ Hs]. cbn [sub_subject] in Hs.
      cbn [dispatch_all fst]. by rewrite (stream_lookup _ _ new_Subject).
    + by apply IH.
Qed.

Lemma subjects_wf_play es c : subjects_wf c → subjects_wf (play es c).1.
Proof.
  revert c. induction es as [| [method args schema | res] rest IH]; intros c Hwf; cbn.
  - done.
  - apply IH. unfold subjects_wf. cbn. apply Forall_app.
    split; [done |]. constructor; [apply subject_wf_new | done].
  - pose proof (subjects_wf_dispatch res c Hwf) as H1.
    destruct (dispatch res c) as [c1 d1]. specialize (IH c1 H1).
    by destruct (play rest c1).
Qed.


(** * Further properties of the constructor *)


Lemma substitution_other matched before after a rest :
  a ≠ "$"%char →
  substitution matched before after (String a rest)
  = String a (substitution matched before after rest).
Proof.
  intros Ha. destruct a as [[] [] [] [] [] [] [] []]; try reflexivity.
  by destruct Ha.
Qed.

Lemma substitution_plain matched before after rep :
  includes "$" rep = false → substitution matched before after rep = rep.
Proof.
  induction rep as [| a rest IH]; [done |].
  cbn [includes]. destruct (Ascii.eqb_spec a "$"); [done |].
  intros Hrest. rewrite substitution_other by done. by rewrite IH.
Qed.

Lemma find_marker :
  find "{{__load__}}" hook_text = Some (hook_head, hook_tail).
Proof. vm_compute. reflexivity. Qed.

(** X15 — The program handed to the interpreter is the hook with its
    marker replaced by the load statement, the text around the marker
    unchanged, whenever the load statement contains no dollar sign. *)
Theorem code_is_hook_with_load (JSON_stringify : string -> string)
    (moduleNameOrCode cwd : string) :
  includes "$" (load JSON_stringify moduleNameOrCode cwd) = false →
  code JSON_stringify moduleNameOrCode cwd
  = hook_head +:+ load JSON_stringify moduleNameOrCode cwd +:+ hook_tail.
Proof.
  intros Hplain. unfold code, replace. rewrite find_marker.
  by rewrite substitution_plain.
Qed.

Lemma code_is_hook_with_load_witness :
  code (λ s, s) "nlp" "/srv"
  = hook_head +:+ "import nlp as module;" +:+ hook_tail.
Proof.
  exact (code_is_hook_with_load (λ s, s) "nlp" "/srv" eq_refl).
Defined.

Lemma endsWith_app base suffix : endsWith (base +:+ suffix) suffix = true.
Proof.
  induction base as [| a base IH].
  - change (EmptyString +:+ suffix) with suffix.
    destruct suffix; cbn [endsWith]; by rewrite String.eqb_refl.
  - rewrite str_app_cons. cbn [endsWith]. rewrite IH.
    by destruct (String.eqb _ _).
Qed.

Lemma find_extension base :
  includes "." base = false →
  find ".py" (base +:+ ".py") = Some (base, EmptyString).
Proof.
  induction base as [| a base IH]; [done |].
  cbn [includes]. destruct (Ascii.eqb_spec a "."); [done |]. intros Hbase.
  rewrite str_app_cons. cbn [find String.prefix].
  destruct (ascii_dec "." a) as [Heq | _]; [congruence |].
  by rewrite IH.
Qed.

(** X16 — A script named [base.py], where [base] contains no dot, is
    loaded by appending the working directory to the module path and
    importing [base]: the extension is dropped, and the name is taken as a
    file name even when it contains spaces. *)
Theorem script_is_imported_by_name (JSON_stringify : string -> string)
    (base cwd : string) :
  includes "." base = false →
  load JSON_stringify (base +:+ ".py") cwd
  = "import sys; sys.path.append('" +:+ cwd +:+ "'); import " +:+ base
      +:+ " as module;".
Proof.
  intros Hbase. unfold load, replace.
  rewrite endsWith_app, (find_extension base Hbase).
  cbn [substitution]. by rewrite str_app_nil_r.
Qed.

Lemma script_is_imported_by_name_witness :
  load (λ s, s) "my script.py" "/srv"
  = "import sys; sys.path.append('/srv'); import my script as module;".
Proof.
  exact (script_is_imported_by_name (λ s, s) "my script" "/srv" eq_refl).
Defined.







(** * The wire between the hook and the framer *)

Lemma trimEnd_cons a s :
  trimEnd s ≠ EmptyString → trimEnd (String a s) = String a (trimEnd s).
Proof. intros H. cbn [trimEnd]. by destruct (trimEnd s). Qed.

Lemma str_app_empty s1 s2 : s1 +:+ s2 = EmptyString → s2 = EmptyString.
Proof. destruct s1; [done | by rewrite str_app_cons]. Qed.

Lemma trimEnd_app_keep s1 s2 :
  trimEnd s2 ≠ EmptyString → trimEnd (s1 +:+ s2) = s1 +:+ trimEnd s2.
Proof.
  intros H. induction s1 as [| a s1 IH]; [done |].
  rewrite !str_app_cons, trimEnd_cons, IH; [done |].
  rewrite IH. by intros ?%str_app_empty.
Qed.

Lemma trimEnd_app_drop s w :
  trimEnd w = EmptyString → trimEnd (s +:+ w) = trimEnd s.
Proof.
  intros H. induction s as [| a s IH]; [done |].
  rewrite str_app_cons. cbn [trimEnd]. by rewrite IH.
Qed.

Lemma starts_with_opener s :
  startsWith s (lit "{'") = true → ∃ rest, s = String "{" rest.
Proof.
  unfold startsWith.
  change (lit "{'") with (String "{" (String quote EmptyString)).
  destruct s as [| a s]; [done |]. cbn [String.prefix].
  destruct (ascii_dec "{" a) as [<- |]; [by eexists | done].
Qed.

Lemma split_line line rest :
  includes LF line = false →
  split LF (line +:+ String LF rest) = line :: split LF rest.
Proof.
  induction line as [| a line IH]; [done |].
  cbn [includes]. destruct (Ascii.eqb a LF) eqn:Ha; [done |]. intros Hline.
  rewrite str_app_cons. cbn [split]. by rewrite Ha, IH.
Qed.

Lemma split_one_line line : includes LF line = false → split LF line = [line].
Proof.
  induction line as [| a line IH]; [done |].
  cbn [includes]. destruct (Ascii.eqb a LF) eqn:Ha; [done |]. intros Hline.
  cbn [split]. by rewrite Ha, IH.
Qed.

Lemma set_buffer_same c : buffer c = [] → set_buffer [] c = c.
Proof. destruct c. cbn. by intros ->. Qed.

Lemma dispatch_all_buffer rs c : buffer (dispatch_all rs c).1 = buffer c.
Proof.
  revert c. induction rs as [| res rs IH]; intros c; [done |].
  by rewrite dispatch_all_cons, IH, dispatch_buffer.
Qed.

Lemma play_buffer es c : buffer (play es c).1 = buffer c.
Proof.
  revert c. induction es as [| [method args schema | res] es IH]; intros c;
    cbn [play].
  - done.
  - by rewrite IH.
  - pose proof (dispatch_buffer res c) as H. specialize (IH (dispatch res c).1).
    destruct (dispatch res c) as [c1 d1]. cbn [fst] in *.
    destruct (play es c1) as [c2 d2]. cbn [fst] in *. congruence.
Qed.

Lemma dispatch_all_app_pair rs1 rs2 c :
  dispatch_all (rs1 ++ rs2) c =
  let (c1, d1) := dispatch_all rs1 c in
  let (c2, d2) := dispatch_all rs2 c1 in
  (c2, d1 ++ d2).
Proof.
  revert c. induction rs1 as [| res rs1 IH]; intros c; cbn [app dispatch_all].
  - by destruct (dispatch_all rs2 c).
  - destruct (dispatch res c) as [c0 d0]. rewrite IH.
    destruct (dispatch_all rs1 c0) as [c1 d1].
    destruct (dispatch_all rs2 c1) as [c2 d2]. by rewrite app_assoc.
Qed.

Section Wire.

Variable JSON_parse : string → option RpcMessage.
Variable dumps : RpcMessage → string.

Lemma separated_nonempty r rs :
  Forall (wire_ok JSON_parse dumps) (r :: rs) →
  separated dumps (r :: rs) ≠ EmptyString.
Proof.
  intros [(_ & [rest Hr]%starts_with_opener & _) _]%Forall_cons.
  cbn [separated]. destruct rs; rewrite Hr; by rewrite ?str_app_cons.
Qed.

Lemma trimEnd_printed rs :
  Forall (wire_ok JSON_parse dumps) rs →
  trimEnd (printed dumps rs) = separated dumps rs.
Proof.
  induction rs as [| r rs IH]; [done |]. intros Hrs.
  pose proof Hrs as [(_ & _ & _ & Hend) Hrest]%Forall_cons.
  cbn [printed separated]. destruct rs as [| r' rs].
  - cbn [printed]. by rewrite trimEnd_app_drop.
  - specialize (IH Hrest).
    change (dumps r +:+ String LF (String LF (printed dumps (r' :: rs))))
      with (dumps r +:+ (String LF (String LF EmptyString)) +:+ printed dumps (r' :: rs)).
    rewrite <- str_app_assoc, trimEnd_app_keep, IH, str_app_assoc; [done |].
    rewrite IH. by apply separated_nonempty.
Qed.

Lemma trim_printed r rs :
  Forall (wire_ok JSON_parse dumps) (r :: rs) →
  trim (printed dumps (r :: rs)) = separated dumps (r :: rs).
Proof.
  intros Hrs. unfold trim. rewrite <- (trimEnd_printed _ Hrs). f_equal.
  apply Forall_cons in Hrs as [(_ & [rest Hr]%starts_with_opener & _) _].
  cbn [printed]. by rewrite Hr.
Qed.

Lemma split_separated rs :
  Forall (wire_ok JSON_parse dumps) rs →
  split LF (separated dumps rs) = lines_of dumps rs.
Proof.
  induction rs as [| r rs IH]; [done |]. intros Hrs.
  pose proof Hrs as [(_ & _ & Hline & _) Hrest]%Forall_cons.
  cbn [separated lines_of]. destruct rs as [| r' rs].
  - by apply split_one_line.
  - rewrite split_line by done. cbn [split]. rewrite Ascii.eqb_refl.
    by rewrite (IH Hrest).
Qed.

Lemma accept_lines rs :
  Forall (wire_ok JSON_parse dumps) rs → rs ≠ [] →
  omap (accept JSON_parse) (lines_of dumps rs) = rs
  ∧ omap (complaint JSON_parse) (lines_of dumps rs) = [].
Proof.
  induction rs as [| r rs IH]; [done |]. intros Hrs _.
  pose proof Hrs as [(Hparse & Hstart & _) Hrest]%Forall_cons.
  assert (Ha : accept JSON_parse (dumps r) = Some r)
    by (unfold accept; by rewrite Hstart).
  assert (Hc : complaint JSON_parse (dumps r) = None)
    by (unfold complaint; by rewrite Hstart, Hparse).
  cbn [lines_of]. destruct rs as [| r' rs].
  - by rewrite (omap_cons_Some _ _ r), omap_cons_None.
  - destruct (IH Hrest) as [IH1 IH2]; [done |].
    rewrite (omap_cons_Some _ _ r) by done.
    rewrite (omap_cons_None (complaint JSON_parse)) by done.
    rewrite !(omap_cons_None _ EmptyString) by done.
    by rewrite IH1, IH2.
Qed.

Lemma includes_printed r rs : includes LF (printed dumps (r :: rs)) = true.
Proof.
  cbn [printed]. rewrite includes_app. cbn [includes].
  rewrite Ascii.eqb_refl. apply orb_true_r.
Qed.

Lemma read_printed_group (g : list RpcMessage) (c : Controller) :
  g ≠ [] → Forall (wire_ok JSON_parse dumps) g → buffer c = [] →
  read JSON_parse (printed dumps g) c = dispatch_all g c.
Proof.
  intros Hne Hg Hbuf. destruct g as [| r g]; [done |].
  rewrite read_complete by apply includes_printed. cbv zeta.
  rewrite Hbuf. cbn [app Buffer_concat]. rewrite str_app_nil_r.
  rewrite (trim_printed _ _ Hg), (split_separated _ Hg).
  rewrite handle_messages_decodes.
  destruct (accept_lines _ Hg Hne) as [-> ->].
  rewrite add_warnings_nil. cbn [fst snd].
  rewrite (set_buffer_same (dispatch_all (r :: g) c).1)
    by (by rewrite dispatch_all_buffer).
  by destruct (dispatch_all _ c).
Qed.

(** The chunks each hold the text printed for some records. *)
Lemma read_all_printed (groups : list (list RpcMessage)) (c : Controller) :
  Forall (λ g, g ≠ []) groups →
  Forall (wire_ok JSON_parse dumps) (List.concat groups) → buffer c = [] →
  read_all JSON_parse (printed dumps <$> groups) c = dispatch_all (List.concat groups) c.
Proof.
  intros Hne. revert c.
  induction Hne as [| g groups Hg _ IH]; intros c Hok Hbuf; [done |].
  cbn [List.concat] in *. apply Forall_app in Hok as [Hok1 Hok2].
  cbn [fmap list_fmap read_all].
  rewrite read_printed_group, dispatch_all_app_pair by done.
  specialize (IH (dispatch_all g c).1 Hok2).
  rewrite dispatch_all_buffer in IH. specialize (IH Hbuf).
  destruct (dispatch_all g c) as [c1 d1]. cbn [fst] in IH. by rewrite IH.
Qed.

(** X18 — What the hook prints is what the host dispatches: when the
    text printed for any records arrives, each record serialised on a line
    of its own and followed by an empty line, the framer hands exactly
    these records to the registry, in the order printed, warns about
    nothing and keeps nothing in its buffer. *)
Theorem printed_records_are_dispatched (rs : list RpcMessage) (c : Controller) :
  rs ≠ [] → Forall (wire_ok JSON_parse dumps) rs → buffer c = [] →
  read JSON_parse (printed dumps rs) c
  = (set_buffer [] (dispatch_all rs c).1, (dispatch_all rs c).2).
Proof.
  intros Hne Hrs Hbuf. destruct rs as [| r rs]; [done |].
  rewrite read_complete by apply includes_printed. cbv zeta.
  rewrite Hbuf. cbn [app Buffer_concat]. rewrite str_app_nil_r.
  rewrite (trim_printed _ _ Hrs), (split_separated _ Hrs).
  rewrite handle_messages_decodes.
  destruct (accept_lines _ Hrs Hne) as [-> ->].
  by rewrite add_warnings_nil.
Qed.

End Wire.

Lemma printed_records_are_dispatched_witness :
  let rs := hook 0 (PyGenerator [JNum (-3); JStr "a"] (Some ["Traceback"])) in
  let c := (send "f" [] z_any new_Controller).2 in
  Forall (wire_ok decode dumps) rs
  ∧ printed dumps rs
    = lit "{'id': 0, 'yield': -3}\n\n{'id': 0, 'yield': 'a'}\n\n{'id': 0, 'error': ['Traceback']}\n\n"
  ∧ stream (read decode (printed dumps rs) c).1 0
    = [NNext (JNum (-3)); NNext (JStr "a"); NError "Traceback"].
Proof.
  intros rs c.
  assert (Hrs : Forall (wire_ok decode dumps) rs).
  { repeat constructor; vm_compute; reflexivity. }
  split; [exact Hrs |]. split; [by vm_compute |].
  rewrite (printed_records_are_dispatched decode dumps rs c); [| done | exact Hrs | done].
  reflexivity.
Defined.

(** * From the method to the caller *)

Section EndToEnd.

Variable JSON_parse : string → option RpcMessage.
Variable dumps : RpcMessage → string.

(** X5 — From the method to the caller, through the pipe.  In any
    session, with other calls and records of other ids processed in
    between, let the remote method of a call behave in any way: return,
    hand over a generator that finishes or raises an [Exception], raise
    an [Exception], or raise something else, which ends the interpreter.
    When every record printed for the call survives the wire and the text
    printed arrives in chunks that each hold one or more whole printed
    records, as the flushed prints give them, the subject of the caller
    emits the values handed over, validated and in order, up to the first
    falsy one, values that fail validation left out; then a completion in
    place of the first falsy value; or else the completion or the error the
    method ends with; or else, when the interpreter ends, nothing more.
    Unless the interpreter ended, the call is no longer pending. *)
Theorem call_notifications (before others : list Event) (method : string)
    (args : list json) (schema : ZodSchema) (o : PyOutcome)
    (groups : list (list RpcMessage)) :
  let c := (play before new_Controller).1 in
  let id := messageId c in
  Forall (foreign id) others →
  List.concat groups = hook id o → Forall (λ g, g ≠ []) groups →
  Forall (wire_ok JSON_parse dumps) (hook id o) →
  let (subject, c1) := send method args schema c in
  let c2 := (play others c1).1 in
  let c3 := (read_all JSON_parse (printed dumps <$> groups) c2).1 in
  stream c3 subject = notified schema o
  ∧ (exits o = false → subscribers c3 !! id = None).
Proof.
  intros c id Hothers Hgroups Hne Hwire.
  assert (Hc : good c) by apply good_play, good_new.
  destruct (send method args schema c) as [subject c1] eqn:Esend.
  assert (Hs : subject = List.length (subjects c)) by (by injection Esend as <- _).
  assert (Hc1 : c1 = (send method args schema c).2) by (by rewrite Esend).
  set (sub := mkSubscriber id schema subject).
  assert (Hp : call_pending (play others c1).1 id sub new_Subject).
  { apply frame_play; [subst c1; by apply good_send | done |].
    subst c1 sub subject. apply call_pending_send. }
  assert (Hbuf : buffer (play others c1).1 = []).
  { rewrite play_buffer. subst c1. cbn. unfold c. by rewrite play_buffer. }
  cbv zeta.
  rewrite (read_all_printed JSON_parse dumps groups (play others c1).1);
    [| done | by rewrite Hgroups | done].
  rewrite Hgroups.
  by apply (dispatch_hook o (play others c1).1 id sub new_Subject);
    [| | split; [| constructor]].
Qed.

(** X14 — Calls made together on one session: when the requests of any
    number of calls are written and the hook loop then serves them one
    after the other, every record it prints surviving the wire and the
    text arriving in chunks that each hold whole printed records, each
    caller whose request the loop comes to is notified of what its own
    method handed over and how it ended, whatever the other calls return,
    yield or raise; a caller whose request comes after one that ended the
    interpreter is notified of nothing, and its promise stays pending. *)
Theorem concurrent_calls_are_answered (calls : list RemoteCall)
    (groups : list (list RpcMessage)) (k : nat) (rc : RemoteCall) :
  let c1 := (play (request_event <$> calls) new_Controller).1 in
  List.concat groups = hook_loop 0 calls → Forall (λ g, g ≠ []) groups →
  Forall (wire_ok JSON_parse dumps) (hook_loop 0 calls) →
  let c2 := (read_all JSON_parse (printed dumps <$> groups) c1).1 in
  calls !! k = Some rc →
  stream c2 k = answer k calls rc
  ∧ promise c2 k = settle None (answer k calls rc)
  ∧ (reached k calls = false → promise c2 k = Pending).
Proof.
  intros c1 Hgroups Hne Hwire c2 Hk.
  assert (Hs : stream c2 k = answer k calls rc).
  { unfold c2.
    rewrite (read_all_printed JSON_parse dumps groups c1);
      [| done | by rewrite Hgroups | unfold c1; by rewrite play_buffer].
    rewrite Hgroups.
    rewrite <- (Nat2Z.id k) at 1. change (Z.of_nat k) with (0 + Z.of_nat k).
    apply dispatch_hook_loop; [| | | done].
    - apply good_play, good_new.
    - apply subjects_wf_play, Forall_nil_2.
    - apply (play_requests calls new_Controller good_new). }
  split; [done |]. rewrite promise_stream, Hs. split; [done |].
  unfold answer. by intros ->.
Qed.

End EndToEnd.

(** A generator yields 1, an invalid item, 2, then 0, then 3, and ends;
    each record arrives in a chunk of its own. *)
Lemma call_notifications_witness :
  let others := [Request "g" [] z_any; Line (Yield 1 (JStr "x"))] in
  let o := PyGenerator [JNum 1; JStr "no"; JNum 2; JNum 0; JNum 3] None in
  let groups := (λ r, [r]) <$> hook 0 o in
  let (subject, c1) := send "f" [] z_number new_Controller in
  let c3 := (read_all decode (printed dumps <$> groups) (play others c1).1).1 in
  Forall (foreign 0) others
  ∧ Forall (wire_ok decode dumps) (hook 0 o)
  ∧ printed dumps <$> take 2 groups
    = [lit "{'id': 0, 'yield': 1}\n\n"; lit "{'id': 0, 'yield': 'no'}\n\n"]
  ∧ stream c3 subject = [NNext (JNum 1); NNext (JNum 2); NComplete].
Proof.
  intros others o groups.
  assert (Hothers : Forall (foreign 0) others) by (repeat constructor; cbn; lia).
  assert (Hwire : Forall (wire_ok decode dumps) (hook 0 o)).
  { repeat constructor; vm_compute; reflexivity. }
  assert (Hne : Forall (λ g : list RpcMessage, g ≠ []) groups).
  { by repeat constructor. }
  pose proof (call_notifications decode dumps [] others "f" [] z_number o groups
                Hothers eq_refl Hne Hwire) as H.
  cbn [play fst] in H.
  destruct (send "f" [] z_number new_Controller) as [subject c1].
  destruct H as [H _].
  split_and!; [exact Hothers | exact Hwire | by vm_compute | exact H].
Defined.

(** Five calls: the fourth calls [sys.exit()], so the fifth is never
    answered. *)
Lemma concurrent_calls_are_answered_witness :
  let calls :=
    [ mkRemoteCall "count" [JStr "a b"] z_number (PyReturn (JNum 2));
      mkRemoteCall "fail" [] z_any (PyRaise ["Traceback"; "KeyError"]);
      mkRemoteCall "words" [JStr "a b"] z_any
        (PyGenerator [JStr "a"; JStr "b"] None);
      mkRemoteCall "quit" [] z_any (PyAbort []);
      mkRemoteCall "count" [JStr "c"] z_number (PyReturn (JNum 1)) ] in
  let groups := (λ r, [r]) <$> hook_loop 0 calls in
  let c1 := (play (request_event <$> calls) new_Controller).1 in
  let c2 := (read_all decode (printed dumps <$> groups) c1).1 in
  Forall (wire_ok decode dumps) (hook_loop 0 calls)
  ∧ promise c2 0 = Fulfilled (Some (JNum 2))
  ∧ promise c2 1 = Rejected "Traceback,KeyError"
  ∧ stream c2 2 = [NNext (JStr "a"); NNext (JStr "b"); NComplete]
  ∧ promise c2 3 = Pending
  ∧ promise c2 4 = Pending.
Proof.
  intros calls groups c1 c2.
  assert (Hwire : Forall (wire_ok decode dumps) (hook_loop 0 calls)).
  { repeat constructor; vm_compute; reflexivity. }
  assert (Hne : Forall (λ g : list RpcMessage, g ≠ []) groups).
  { by repeat constructor. }
  pose proof (λ k rc, concurrent_calls_are_answered decode dumps calls groups k rc
                        eq_refl Hne Hwire) as H.
  destruct (H 0%nat _ eq_refl) as (_ & H0 & _).
  destruct (H 1%nat _ eq_refl) as (_ & H1 & _).
  destruct (H 2%nat _ eq_refl) as (H2 & _).
  destruct (H 3%nat _ eq_refl) as (_ & H3 & _).
  destruct (H 4%nat _ eq_refl) as (_ & _ & H4).
  split_and!; [exact Hwire | exact H0 | exact H1 | exact H2 | exact H3
              | exact (H4 eq_refl)].
Defined.
